(** * Persian swear-word remover: the redaction pipeline of [swear.py]

    A shallow embedding of [PersianSwearWordRemover] (lexicon loader, text
    normaliser, token matcher, redaction pipeline) together with the
    properties its specification states about it.

    Modelling choices.
    - A Python [str] is a sequence of Unicode code points: [list N].
    - [re.sub(r'(.)\1{2,}', r'\1', text)] is the left-to-right scan of the
      regular-expression engine specialised to that pattern: [.] rejects the
      line feed, the back-reference compares code points exactly, the
      quantifier is greedy.
    - [str.split()] splits on the code points Python calls whitespace.
    - [len(a) / len(b) * 100] has two models.  [remove_persian_swear_words]
      carries its exact rational value ([Q]); the properties stated on it are
      those rounding cannot change (zero, one hundred, order).
      [remove_persian_swear_words_binary64] computes it as the interpreter
      does: the quotient of the two integers correctly rounded to binary64,
      then the product by [100] rounded again ([Binary64.round64]); a float
      is represented by its exact rational value.  Lengths are below [2^63],
      so the results lie between [2^-63] and [100], where binary64 neither
      underflows nor overflows: the rounding keeps 53 significant bits and
      does not bound the exponent.  Division raises [ZeroDivisionError] on a
      zero divisor, as in Python.
    - Code that can raise returns an [outcome]: a value or an exception.
    - [open] and [json.load] are library code: what they find at the path
      (nothing, an unreadable or undecodable file, malformed JSON, a parsed
      document) is the input of the loader's model. *)

From Stdlib Require Import Ascii String.
From Stdlib Require Import List Bool Arith NArith ZArith QArith Qround Lia Lqa.
From Stdlib Require Import Floats.SpecFloat.
Import ListNotations.
Close Scope Q_scope.

Set Implicit Arguments.

(* ------------------------------------------------------------------ *)
(** ** Python strings *)

Module PyStr.

(** A character is a code point, a string a list of them. *)
Definition char := N.
Definition str := list char.

(** Embeds an ASCII literal, one code point per character. *)
Fixpoint lit (s : string) : str :=
  match s with
  | EmptyString => []
  | String a s' => N_of_ascii a :: lit s'
  end.

Definition LF : char := 10%N.
Definition SPACE : char := 32%N.

(** [str.isspace] on one code point, the table [str.split()] uses. *)
Definition isspace (c : char) : bool :=
  ((9 <=? c) && (c <=? 13)          (* \t \n \v \f \r *)
   || (28 <=? c) && (c <=? 32)      (* FS GS RS US, space *)
   || (c =? 133) || (c =? 160)      (* NEL, no-break space *)
   || (c =? 5760)                   (* U+1680 *)
   || (8192 <=? c) && (c <=? 8202)  (* U+2000 .. U+200A *)
   || (c =? 8232) || (c =? 8233)    (* U+2028, U+2029 *)
   || (c =? 8239) || (c =? 8287)    (* U+202F, U+205F *)
   || (c =? 12288))%N.              (* U+3000 *)

Definition is_nil (A : Type) (l : list A) : bool :=
  match l with [] => true | _ => false end.

(** [s.split()]: maximal runs of non-whitespace, in order.  [cur] is the
    token being read. *)
Fixpoint split_from (cur : str) (s : str) : list str :=
  match s with
  | [] => if is_nil cur then [] else [cur]
  | c :: tl =>
      if isspace c
      then (if is_nil cur then split_from [] tl else cur :: split_from [] tl)
      else split_from (cur ++ [c]) tl
  end.

Definition split (s : str) : list str := split_from [] s.

(** [sep.join(parts)]. *)
Fixpoint join (sep : str) (parts : list str) : str :=
  match parts with
  | [] => []
  | [p] => p
  | p :: rest => p ++ sep ++ join sep rest
  end.

(** [s.startswith(sub)]. *)
Fixpoint startswith (sub s : str) : bool :=
  match sub, s with
  | [], _ => true
  | _ :: _, [] => false
  | a :: sub', b :: s' => (a =? b)%N && startswith sub' s'
  end.

(** [sub in s]: [sub] occurs in [s] at some offset. *)
Fixpoint contains (sub s : str) : bool :=
  startswith sub s ||
  match s with
  | [] => false
  | _ :: s' => contains sub s'
  end.

(** [c * n]. *)
Definition rep (c : char) (n : nat) : str := repeat c n.

(** A word is a non-empty string without whitespace. *)
Definition is_word (w : str) : bool :=
  negb (is_nil w) && forallb (fun c => negb (isspace c)) w.

(** [s.startswith(c)] and [s.endswith(c)] for a single character [c]. *)
Definition starts (c : char) (s : str) : bool :=
  match s with
  | d :: _ => (d =? c)%N
  | [] => false
  end.

Fixpoint ends (c : char) (s : str) : bool :=
  match s with
  | [] => false
  | [d] => (d =? c)%N
  | _ :: tl => ends c tl
  end.

End PyStr.

Import PyStr.

(* ------------------------------------------------------------------ *)
(** ** The normaliser's regular expression *)

Module Re.

(** [.] without [re.DOTALL]: every code point except the line feed. *)
Definition dot (c : char) : bool := negb (c =? LF)%N.

(** The greedy [\1*]: what is left once the leading copies of [c] are
    consumed, and how many there were. *)
Fixpoint skip (c : char) (s : str) : str :=
  match s with
  | d :: s' => if (d =? c)%N then skip c s' else s
  | [] => []
  end.

Fixpoint run (c : char) (s : str) : nat :=
  match s with
  | d :: s' => if (d =? c)%N then S (run c s') else 0
  | [] => 0
  end.

(** [(.)\1{2,}] matches at the head of [c :: tl]. *)
Definition matches (c : char) (tl : str) : bool :=
  dot c && (2 <=? run c tl).

(** [re.sub(r'(.)\1{2,}', r'\1', s)]: at each position, a match is replaced
    by its group 1 and the scan resumes after it; otherwise the character
    is copied and the scan moves one position on. *)
Fixpoint sub_rep3 (s : str) : str :=
  match s with
  | [] => []
  | c :: tl =>
      if matches c tl
      then c :: (fix resume (r : str) : str :=
                   match r with
                   | d :: r' => if (d =? c)%N then resume r' else sub_rep3 r
                   | [] => []
                   end) tl
      else c :: sub_rep3 tl
  end.

End Re.

(* ------------------------------------------------------------------ *)
(** ** Exceptions *)

Module Py.

(** The exception classes involved. *)
Inductive exc : Type :=
| FileNotFoundError
| PermissionError
| IsADirectoryError
| UnicodeDecodeError
| JSONDecodeError
| AttributeError
| ZeroDivisionError
| KeyboardInterrupt
| SystemExit.

(** [isinstance(e, Exception)]: the last two derive from [BaseException]
    only. *)
Definition is_Exception (e : exc) : bool :=
  match e with
  | KeyboardInterrupt | SystemExit => false
  | _ => true
  end.

Inductive outcome (A : Type) : Type :=
| Return (a : A)
| Raise (e : exc).
Arguments Return {A} a.
Arguments Raise {A} e.

Definition bind (A B : Type) (m : outcome A) (k : A -> outcome B) : outcome B :=
  match m with
  | Return a => k a
  | Raise e => Raise e
  end.

(** [try: body except Exception as e: handler(e)]. *)
Definition try_except (A : Type) (body : outcome A) (handler : exc -> outcome A)
  : outcome A :=
  match body with
  | Return a => Return a
  | Raise e => if is_Exception e then handler e else Raise e
  end.

End Py.

Import Py.

Notation "x <- m ;; k" := (bind m (fun x => k))
  (at level 61, m at next level, right associativity).

(* ------------------------------------------------------------------ *)
(** ** The lexicon loader *)

Module Loader.

(** What [json.load] builds. A number keeps its literal; an object keeps
    its members in file order. *)
#[warnings="-register-all"] Inductive json : Type :=
| JNull
| JBool (b : bool)
| JNum (literal : str)
| JStr (s : str)
| JArr (items : list json)
| JObj (members : list (str * json)).

(** What is found at [file_path]. *)
Inductive file : Type :=
| Missing
| Unreadable
| Directory
| NotUtf8
| Malformed
| Document (data : json).

(** [with open(file_path, 'r', encoding='utf-8') as file: json.load(file)]. *)
Definition open_and_load (f : file) : outcome json :=
  match f with
  | Missing => Raise FileNotFoundError
  | Unreadable => Raise PermissionError
  | Directory => Raise IsADirectoryError
  | NotUtf8 => Raise UnicodeDecodeError
  | Malformed => Raise JSONDecodeError
  | Document data => Return data
  end.

Definition str_eqb (a b : str) : bool :=
  if list_eq_dec N.eq_dec a b then true else false.

(** The dict built from an object's members: a repeated key keeps its last
    value. *)
Fixpoint dict_get (key : str) (members : list (str * json)) (default : json) : json :=
  match members with
  | [] => default
  | (k, v) :: rest =>
      dict_get key rest (if str_eqb k key then v else default)
  end.

(** [data.get(key, default)]: only a dict has the method. *)
Definition get (data : json) (key : str) (default : json) : outcome json :=
  match data with
  | JObj members => Return (dict_get key members default)
  | _ => Raise AttributeError
  end.

Definition has_key (key : str) (data : json) : bool :=
  match data with
  | JObj members => existsb (fun kv => str_eqb (fst kv) key) members
  | _ => false
  end.

Definition swear_words_key : str := lit "swear_words".

(** [load_swear_words(file_path)]; the handler logs and returns [[]]. *)
Definition load_swear_words (f : file) : outcome json :=
  try_except
    (data <- open_and_load f ;; get data swear_words_key (JArr []))
    (fun _ => Return (JArr [])).

(** The errors [logging.error] reports during the call. *)
Definition load_swear_words_log (f : file) : list exc :=
  match data <- open_and_load f ;; get data swear_words_key (JArr []) with
  | Raise e => if is_Exception e then [e] else []
  | Return _ => []
  end.

End Loader.

(* ------------------------------------------------------------------ *)
(** ** The remover *)

(** [PersianSwearWordRemover]: the three collaborators built by
    [__init__] and the lexicon. *)
Record PersianSwearWordRemover (Tokenizer Model Pipeline : Type) : Type :=
  { tokenizer : Tokenizer;
    model : Model;
    pipeline : Pipeline;
    swear_words : list str }.

(** The dictionary [remove_persian_swear_words] returns. *)
Record RedactionResult : Type :=
  { cleaned_text : str;
    detected_swear_words : list str;
    swear_word_percentage : Q }.

Definition normalize_text (text : str) : str := Re.sub_rep3 text.

(** [a / b] on two lengths, true division. *)
Definition true_div (a b : nat) : outcome Q :=
  if (b =? 0)%nat then Raise ZeroDivisionError
  else Return (Z.of_nat a # Pos.of_nat b)%Q.

(** [f"{p:.2f}"] as used by [main], in hundredths, for [p] the exact value
    of the float being printed: the nearest hundredth, a tie going to the
    even side. *)
Definition format_2f (p : Q) : Z :=
  let x := (p * 100)%Q in
  let lo := Qfloor x in
  match (x - inject_Z lo ?= 1 # 2)%Q with
  | Lt => lo
  | Gt => (lo + 1)%Z
  | Eq => if Z.even lo then lo else (lo + 1)%Z
  end.

Section Remover.

Context {Tokenizer Model Pipeline : Type}.
Abbreviation remover := (PersianSwearWordRemover Tokenizer Model Pipeline).

Definition is_swear_word (self : remover) (token : str) : bool :=
  let normalized_token := normalize_text token in
  existsb (fun sw_word => contains sw_word normalized_token) (swear_words self).

(** One iteration of the loop over [tokens], on the pair
    ([cleaned_tokens], [detected_swear_words]). *)
Definition loop_body (self : remover) (acc : list str * list str) (token : str)
  : list str * list str :=
  let (cleaned_tokens, detected) := acc in
  if is_swear_word self token
  then (cleaned_tokens, detected ++ [token])
  else (cleaned_tokens ++ [token], detected).

Definition loop (self : remover) (tokens : list str) : list str * list str :=
  fold_left (loop_body self) tokens ([], []).

Definition remove_persian_swear_words (self : remover) (text : str)
  : outcome RedactionResult :=
  let normalized_text := normalize_text text in
  let tokens := split normalized_text in
  let (cleaned_tokens, detected) := loop self tokens in
  let cleaned_text := join [SPACE] cleaned_tokens in
  percentage <-
    (if is_nil tokens then Return 0%Q
     else ratio <- true_div (length detected) (length tokens) ;;
          Return (ratio * 100)%Q) ;;
  Return {| cleaned_text := cleaned_text;
            detected_swear_words := detected;
            swear_word_percentage := percentage |}.

End Remover.

(** Builds an instance around a lexicon, for the examples. *)
Definition with_lexicon (lexicon : list str) : PersianSwearWordRemover unit unit unit :=
  {| tokenizer := tt; model := tt; pipeline := tt; swear_words := lexicon |}.

(* ------------------------------------------------------------------ *)
(** ** Binary64 arithmetic *)

Module Binary64.

(** [a / b] rounded to the nearest integer, a tie going to the even one
    ([0 <= a], [0 < b]). *)
Definition rne (a b : Z) : Z :=
  let q := (a / b)%Z in
  let r := (a mod b)%Z in
  match (2 * r ?= b)%Z with
  | Lt => q
  | Gt => (q + 1)%Z
  | Eq => if Z.even q then q else (q + 1)%Z
  end.

(** [n/d] divided by [2^e], as a numerator and a denominator. *)
Definition scaled (n d : positive) (e : Z) : Z * Z :=
  if (0 <=? e)%Z then (Zpos n, (Zpos d * 2 ^ e)%Z)
  else ((Zpos n * 2 ^ (- e))%Z, Zpos d).

(** The exponent [e] of the last of 53 significant bits of [n/d]:
    [2^52 <= (n/d) / 2^e < 2^53]. *)
Definition exponent (n d : positive) : Z :=
  let e0 := (Z.log2 (Zpos n) - Z.log2 (Zpos d) - 52)%Z in
  let (a, b) := scaled n d e0 in
  if (2 ^ 52 * b <=? a)%Z then e0 else (e0 - 1)%Z.

(** The float nearest to [n/d]: [m * 2^e] with [m] the 53-bit significand
    rounded to nearest, ties to even. *)
Definition round_pos (n d : positive) : Q :=
  let e := exponent n d in
  let (a, b) := scaled n d e in
  let m := rne a b in
  if (0 <=? e)%Z then inject_Z (m * 2 ^ e) else (m # Z.to_pos (2 ^ (- e)))%Q.

(** Rounding to binary64, round-to-nearest-even. *)
Definition round64 (x : Q) : Q :=
  match Qnum x with
  | Z0 => 0%Q
  | Zpos n => round_pos n (Qden x)
  | Zneg n => (- round_pos n (Qden x))%Q
  end.

(** [1 - 2^-53] and [1 + 2^-53]: one rounding moves a value by at most one
    part in [2^53]. *)
Definition below : Q := (9007199254740991 # 9007199254740992)%Q.
Definition above : Q := (9007199254740993 # 9007199254740992)%Q.

(** The exact value of a finite float of the Standard Library's IEEE 754
    specification, and the float of an integer there; used to compare
    [round64] with that specification. *)
Definition SF2Q (f : spec_float) : Q :=
  match f with
  | S754_finite s m e =>
      let v := if (0 <=? e)%Z then inject_Z (Zpos m * 2 ^ e)
               else (Zpos m # Z.to_pos (2 ^ (- e)))%Q in
      if s then (- v)%Q else v
  | _ => 0%Q
  end.

Definition SF_of_Z (n : Z) : spec_float := binary_normalize 53 1024 n 0 false.

End Binary64.

(** [a / b] on two lengths as the interpreter computes it: the quotient of
    the two integers, correctly rounded. *)
Definition true_div_binary64 (a b : nat) : outcome Q :=
  if (b =? 0)%nat then Raise ZeroDivisionError
  else Return (Binary64.round64 (Z.of_nat a # Pos.of_nat b)%Q).

(** [x * y] on floats. *)
Definition mul_binary64 (x y : Q) : Q := Binary64.round64 (x * y)%Q.

(** [remove_persian_swear_words] with the percentage computed in binary64. *)
Definition remove_persian_swear_words_binary64 (Tokenizer Model Pipeline : Type)
    (self : PersianSwearWordRemover Tokenizer Model Pipeline) (text : str)
  : outcome RedactionResult :=
  let normalized_text := normalize_text text in
  let tokens := split normalized_text in
  let (cleaned_tokens, detected) := loop self tokens in
  let cleaned_text := join [SPACE] cleaned_tokens in
  percentage <-
    (if is_nil tokens then Return 0%Q
     else ratio <- true_div_binary64 (length detected) (length tokens) ;;
          Return (mul_binary64 ratio 100)) ;;
  Return {| cleaned_text := cleaned_text;
            detected_swear_words := detected;
            swear_word_percentage := percentage |}.

(** The decimal digits of a natural number. *)
Fixpoint digits (u : Decimal.uint) : str :=
  match u with
  | Decimal.Nil => []
  | Decimal.D0 u' => 48%N :: digits u'
  | Decimal.D1 u' => 49%N :: digits u'
  | Decimal.D2 u' => 50%N :: digits u'
  | Decimal.D3 u' => 51%N :: digits u'
  | Decimal.D4 u' => 52%N :: digits u'
  | Decimal.D5 u' => 53%N :: digits u'
  | Decimal.D6 u' => 54%N :: digits u'
  | Decimal.D7 u' => 55%N :: digits u'
  | Decimal.D8 u' => 56%N :: digits u'
  | Decimal.D9 u' => 57%N :: digits u'
  end.

(** [f"{p:.2f}"] as text, for [p >= 0] the exact value of the float: the
    integer part, a point, two decimals. *)
Definition render_2f (p : Q) : str :=
  let h := Z.to_N (format_2f p) in
  digits (N.to_uint (h / 100)) ++ lit "."
  ++ digits (N.to_uint (h mod 100 / 10)) ++ digits (N.to_uint (h mod 10)).

(* ------------------------------------------------------------------ *)
(** ** Predicates used to state further properties *)

(** The pattern [(.)\1{2,}] matches somewhere in [s]. *)
Fixpoint has_repetition (s : str) : bool :=
  match s with
  | [] => false
  | c :: tl => Re.matches c tl || has_repetition tl
  end.

(** [rest] is empty or begins with whitespace. *)
Definition at_gap (rest : str) : bool :=
  match rest with
  | [] => true
  | c :: _ => isspace c
  end.

(* ------------------------------------------------------------------ *)
(** ** The constructor *)

(** The lexicon a loaded JSON value stands for when it is a list of strings,
    the shape [swear_words] has in the remover's record; any other value is
    outside that record's type. *)
Fixpoint as_strings (items : list Loader.json) : option (list str) :=
  match items with
  | [] => Some []
  | Loader.JStr s :: rest => option_map (cons s) (as_strings rest)
  | _ :: _ => None
  end.

Definition as_lexicon (v : Loader.json) : option (list str) :=
  match v with
  | Loader.JArr items => as_strings items
  | _ => None
  end.

(** [PersianSwearWordRemover(model_name, swear_file)] once the transformers
    library has built [tok], [mdl] and [pipe]: the lexicon is what
    [load_swear_words] returns for the file. *)
Definition init (T M P : Type) (tok : T) (mdl : M) (pipe : P) (swear_file : Loader.file)
  : outcome (option (PersianSwearWordRemover T M P)) :=
  loaded <- Loader.load_swear_words swear_file ;;
  Return (option_map
            (fun lexicon => {| tokenizer := tok; model := mdl; pipeline := pipe;
                               swear_words := lexicon |})
            (as_lexicon loaded)).

(* ------------------------------------------------------------------ *)
(** ** Worked examples *)

Example normalize_fooo :
  normalize_text (lit "hello foooo world") = lit "hello fo world".
Proof. reflexivity. Qed.

Example normalize_line_feeds : normalize_text [LF; LF; LF; LF] = [LF; LF; LF; LF].
Proof. reflexivity. Qed.

Example split_irregular :
  split (lit "  a   b c ") = [lit "a"; lit "b"; lit "c"].
Proof. reflexivity. Qed.

Example substring_match :
  is_swear_word (with_lexicon [lit "bad"]) (lit "ubadx") = true.
Proof. reflexivity. Qed.

(** [round64] against the Standard Library's specification of IEEE 754
    binary64 ([prec = 53], [emax = 1024]) on [(d / t) * 100]. *)
Example binary64_agrees_1_of_3 :
  (Binary64.SF2Q
     (SFmul 53 1024
        (SFdiv 53 1024 (Binary64.SF_of_Z 1) (Binary64.SF_of_Z 3))
        (Binary64.SF_of_Z 100))
   == mul_binary64 (Binary64.round64 (1 # 3)) 100)%Q.
Proof. vm_compute. reflexivity. Qed.

Example binary64_agrees_11_of_20 :
  (Binary64.SF2Q
     (SFmul 53 1024
        (SFdiv 53 1024 (Binary64.SF_of_Z 11) (Binary64.SF_of_Z 20))
        (Binary64.SF_of_Z 100))
   == mul_binary64 (Binary64.round64 (11 # 20)) 100)%Q.
Proof. vm_compute. reflexivity. Qed.

Example binary64_agrees_23_of_160 :
  (Binary64.SF2Q
     (SFmul 53 1024
        (SFdiv 53 1024 (Binary64.SF_of_Z 23) (Binary64.SF_of_Z 160))
        (Binary64.SF_of_Z 100))
   == mul_binary64 (Binary64.round64 (23 # 160)) 100)%Q.
Proof. vm_compute. reflexivity. Qed.

(** [23/160*100] is the float [14.374999999999998], printed ["14.37"];
    [1/160*100] is exactly [0.625], a tie, printed ["0.62"]. *)
Example render_23_of_160 :
  render_2f (mul_binary64 (Binary64.round64 (23 # 160)) 100) = lit "14.37".
Proof. vm_compute. reflexivity. Qed.

Example render_1_of_160 :
  render_2f (mul_binary64 (Binary64.round64 (1 # 160)) 100) = lit "0.62".
Proof. vm_compute. reflexivity. Qed.

Example render_all :
  render_2f (mul_binary64 (Binary64.round64 (7 # 7)) 100) = lit "100.00".
Proof. vm_compute. reflexivity. Qed.

Example foo_survives :
  remove_persian_swear_words (with_lexicon [lit "foo"]) (lit "hello foooo world")
  = Return {| cleaned_text := lit "hello fo world";
              detected_swear_words := [];
              swear_word_percentage := ((0 # 3) * 100)%Q |}.
Proof. reflexivity. Qed.

Unset Implicit Arguments.

(* ------------------------------------------------------------------ *)
(** ** Facts about strings *)

Lemma starts_spec c s : starts c s = true <-> exists q, s = c :: q.
Proof.
  destruct s as [|d q]; simpl.
  - split; [discriminate | intros [q H]; discriminate].
  - rewrite N.eqb_eq. split.
    + intros ->. now exists q.
    + intros [q' H]. now inversion H.
Qed.

Lemma ends_app_last c s d : ends c (s ++ [d]) = (d =? c)%N.
Proof.
  induction s as [|e s IH]; simpl; [reflexivity|].
  destruct (s ++ [d]) eqn:E; [now destruct s | exact IH].
Qed.

Lemma ends_spec c s : ends c s = true <-> exists p, s = p ++ [c].
Proof.
  split.
  - destruct s as [|d s] using rev_ind; [discriminate|].
    rewrite ends_app_last, N.eqb_eq. intros ->. now exists s.
  - intros [p ->]. rewrite ends_app_last. apply N.eqb_refl.
Qed.

Lemma ends_cons c d s : s <> [] -> ends c (d :: s) = ends c s.
Proof. destruct s; [congruence | reflexivity]. Qed.

Lemma startswith_app sub post : startswith sub (sub ++ post) = true.
Proof.
  induction sub as [|a sub IH]; simpl; [reflexivity|].
  now rewrite N.eqb_refl.
Qed.

Lemma startswith_spec sub s : startswith sub s = true <-> exists post, s = sub ++ post.
Proof.
  split.
  - revert s. induction sub as [|a sub IH]; intros s H.
    + now exists s.
    + destruct s as [|b s]; simpl in H; [discriminate|].
      apply andb_prop in H as [Hab H]. apply N.eqb_eq in Hab as ->.
      destruct (IH _ H) as [post ->]. now exists post.
  - intros [post ->]. apply startswith_app.
Qed.

(** [sub in s] is substring containment. *)
Lemma contains_spec sub s :
  contains sub s = true <-> exists pre post, s = pre ++ sub ++ post.
Proof.
  split.
  - induction s as [|b s IH]; simpl; rewrite orb_true_iff; intros [H|H].
    + apply startswith_spec in H as [post ->]. now exists [], post.
    + discriminate.
    + apply startswith_spec in H as [post ->]. now exists [], post.
    + destruct (IH H) as (pre & post & ->). now exists (b :: pre), post.
  - intros (pre & post & ->).
    induction pre as [|b pre IH]; simpl.
    + pose proof (startswith_app sub post) as H.
      destruct (sub ++ post); simpl; rewrite H; reflexivity.
    + rewrite IH. apply orb_true_r.
Qed.

Lemma contains_empty s : contains [] s = true.
Proof. now destruct s. Qed.

(** Reading a whitespace-free word extends the token being read. *)
Lemma split_from_word cur w rest :
  forallb (fun c => negb (isspace c)) w = true ->
  split_from cur (w ++ rest) = split_from (cur ++ w) rest.
Proof.
  revert cur. induction w as [|c w IH]; intros cur H; simpl.
  - now rewrite app_nil_r.
  - simpl in H. apply andb_prop in H as [Hc Hw].
    apply negb_true_iff in Hc. rewrite Hc, (IH _ Hw), <- app_assoc. reflexivity.
Qed.

(** Splitting undoes a join of words by single spaces. *)
Lemma split_join words :
  forallb is_word words = true -> split (join [SPACE] words) = words.
Proof.
  unfold split. induction words as [|w ws IH]; intros H; [reflexivity|].
  simpl in H. apply andb_prop in H as [Hw Hws].
  apply andb_prop in Hw as [Hne Hw].
  destruct ws as [|w' ws].
  - simpl. rewrite <- (app_nil_r w) at 1. rewrite (split_from_word [] w [] Hw).
    simpl. destruct w; [discriminate | reflexivity].
  - change (join [SPACE] (w :: w' :: ws)) with (w ++ SPACE :: join [SPACE] (w' :: ws)).
    rewrite (split_from_word [] w _ Hw). simpl app.
    change (split_from w (SPACE :: join [SPACE] (w' :: ws)))
      with (if is_nil w then split_from [] (join [SPACE] (w' :: ws))
            else w :: split_from [] (join [SPACE] (w' :: ws))).
    destruct w; [discriminate|]. simpl is_nil. cbv iota. now rewrite (IH Hws).
Qed.

(* ------------------------------------------------------------------ *)
(** ** Facts about the normaliser *)

Section Normalizer.

Import Re.

(** The scan, one position at a time. *)
Lemma sub_rep3_cons c tl :
  sub_rep3 (c :: tl) = c :: sub_rep3 (if matches c tl then skip c tl else tl).
Proof.
  cbn [sub_rep3]. destruct (matches c tl); [|reflexivity]. f_equal.
  induction tl as [|d r IH]; [reflexivity|].
  cbn [skip]. destruct (d =? c)%N; [exact IH | reflexivity].
Qed.

Lemma run_le_length c s : run c s <= length s.
Proof.
  induction s as [|d s IH]; simpl; [lia|]. destruct (d =? c)%N; lia.
Qed.

Lemma skip_length c s : length (skip c s) <= length s.
Proof.
  induction s as [|d s IH]; simpl; [lia|]. destruct (d =? c)%N; simpl; lia.
Qed.

Lemma run_0_starts c s : run c s = 0 <-> starts c s = false.
Proof.
  destruct s as [|d s]; simpl; [tauto|].
  destruct (d =? c)%N; split; congruence.
Qed.

Lemma skip_stop c s : starts c s = false -> skip c s = s.
Proof. destruct s as [|d s]; simpl; [reflexivity | now intros ->]. Qed.

Lemma starts_skip c s : starts c (skip c s) = false.
Proof.
  induction s as [|d s IH]; simpl; [reflexivity|].
  destruct (d =? c)%N eqn:E; [exact IH | simpl; exact E].
Qed.

(** The scan keeps the first character. *)
Lemma starts_sub_rep3 c s : starts c (sub_rep3 s) = starts c s.
Proof. destruct s; [reflexivity | now rewrite sub_rep3_cons]. Qed.

(** No run grows. *)
Lemma run_sub_rep3_le c s : run c (sub_rep3 s) <= run c s.
Proof.
  induction s as [|d tl IH]; [simpl; lia|].
  rewrite sub_rep3_cons. cbn [run]. destruct (d =? c)%N eqn:E; [|lia].
  apply N.eqb_eq in E. subst d. destruct (matches c tl).
  - pose proof (starts_skip c tl) as H.
    rewrite <- (starts_sub_rep3 c), <- run_0_starts in H. lia.
  - lia.
Qed.

Lemma matches_sub_rep3 c tl :
  matches c (sub_rep3 (if matches c tl then skip c tl else tl)) = false.
Proof.
  unfold matches. destruct (dot c); [cbn [andb] | reflexivity].
  apply Nat.leb_gt. destruct (2 <=? run c tl) eqn:M.
  - pose proof (starts_skip c tl) as H.
    rewrite <- (starts_sub_rep3 c), <- run_0_starts in H. lia.
  - apply Nat.leb_gt in M. pose proof (run_sub_rep3_le c tl). lia.
Qed.

Lemma sub_rep3_idem_bounded n :
  forall s, length s <= n -> sub_rep3 (sub_rep3 s) = sub_rep3 s.
Proof.
  induction n as [|n IH]; intros [|c tl] H; try reflexivity; simpl in H; [lia|].
  rewrite sub_rep3_cons, sub_rep3_cons, matches_sub_rep3. f_equal.
  apply IH. destruct (matches c tl); [pose proof (skip_length c tl)|]; lia.
Qed.

(** *** Runs and concatenation *)

Lemma run_app_short c s x :
  run c s < length s ->
  run c (s ++ x) = run c s /\ skip c (s ++ x) = skip c s ++ x.
Proof.
  induction s as [|d s IH]; simpl; [lia|].
  destruct (d =? c)%N; [|now split]. intros H.
  destruct IH as [H1 H2]; [lia|]. now rewrite H1, H2.
Qed.

Lemma run_app_full c s x :
  run c s = length s ->
  run c (s ++ x) = length s + run c x /\ skip c (s ++ x) = skip c x /\ skip c s = [].
Proof.
  induction s as [|d s IH]; simpl; [now repeat split|].
  destruct (d =? c)%N; [|discriminate]. intros H.
  destruct IH as (H1 & H2 & H3); [lia|]. rewrite H1. now repeat split.
Qed.

Lemma run_full_ends d tl : run d tl = length tl -> ends d (d :: tl) = true.
Proof.
  induction tl as [|e tl IH]; simpl run; simpl length.
  - intros _. apply N.eqb_refl.
  - destruct (e =? d)%N eqn:E; [|discriminate]. apply N.eqb_eq in E. subst e.
    intros H. rewrite ends_cons by discriminate. apply IH. lia.
Qed.

Lemma ends_tail c d tl : ends c (d :: tl) = false -> ends c tl = false.
Proof. destruct tl; [reflexivity | now rewrite ends_cons]. Qed.

Lemma ends_skip c d s : ends c s = false -> ends c (skip d s) = false.
Proof.
  induction s as [|e s IH]; [reflexivity|]. intros H. cbn [skip].
  destruct (e =? d)%N; [|exact H]. apply IH. now apply ends_tail in H.
Qed.

Lemma ends_diff c d s : ends d s = true -> ends c s = false -> (c =? d)%N = false.
Proof.
  intros H1 H2. apply ends_spec in H1 as [p ->]. rewrite ends_app_last in H2.
  now rewrite N.eqb_sym.
Qed.

(** The scan of [s ++ c :: x] is the scan of [s] followed by the scan of
    [c :: x] when [s] does not end with [c]: no run crosses the seam. *)
Lemma sub_rep3_app_bounded n :
  forall s c x, length s <= n -> ends c s = false ->
    sub_rep3 (s ++ c :: x) = sub_rep3 s ++ sub_rep3 (c :: x).
Proof.
  induction n as [|n IH]; intros [|d tl] c x Hn He; try reflexivity;
    simpl in Hn; [lia|].
  assert (Htl : ends c tl = false) by now apply ends_tail in He.
  cbn [app]. rewrite (sub_rep3_cons d (tl ++ c :: x)), (sub_rep3_cons d tl).
  destruct (Nat.eq_dec (run d tl) (length tl)) as [Full|Short].
  - pose proof (ends_diff c d _ (run_full_ends d tl Full) He) as Hcd.
    destruct (run_app_full d tl (c :: x) Full) as (H1 & H2 & H3).
    assert (Hx : run d (c :: x) = 0) by (simpl; now rewrite Hcd).
    assert (Hm : matches d (tl ++ c :: x) = matches d tl)
      by (unfold matches; rewrite H1, Hx, Full; now rewrite Nat.add_0_r).
    rewrite Hm, H2, H3. destruct (matches d tl).
    + rewrite skip_stop by (simpl; exact Hcd). reflexivity.
    + cbn [app]. f_equal. apply IH; [lia | exact Htl].
  - pose proof (run_le_length d tl).
    destruct (run_app_short d tl (c :: x)) as (H1 & H2); [lia|].
    assert (Hm : matches d (tl ++ c :: x) = matches d tl)
      by (unfold matches; now rewrite H1).
    rewrite Hm, H2. cbn [app]. f_equal. destruct (matches d tl).
    + apply IH; [pose proof (skip_length d tl); lia | now apply ends_skip].
    + apply IH; [lia | exact Htl].
Qed.

Lemma sub_rep3_app s c x :
  ends c s = false -> sub_rep3 (s ++ c :: x) = sub_rep3 s ++ sub_rep3 (c :: x).
Proof. apply (sub_rep3_app_bounded (length s)). lia. Qed.

Lemma run_rep c n x : run c (rep c n ++ x) = n + run c x.
Proof. induction n as [|n IH]; simpl; [reflexivity|]. now rewrite N.eqb_refl, IH. Qed.

Lemma skip_rep c n x : skip c (rep c n ++ x) = skip c x.
Proof. induction n as [|n IH]; simpl; [reflexivity|]. now rewrite N.eqb_refl. Qed.

(** A run of [n + 3] copies of a character [.] accepts becomes one. *)
Lemma sub_rep3_long_run c n x :
  dot c = true -> starts c x = false ->
  sub_rep3 (rep c (3 + n) ++ x) = c :: sub_rep3 x.
Proof.
  intros D Hx. change (rep c (3 + n) ++ x) with (c :: rep c (2 + n) ++ x).
  rewrite sub_rep3_cons. unfold matches. rewrite D, run_rep, skip_rep.
  simpl. now rewrite skip_stop.
Qed.

(** Runs of one and of two stay. *)
Lemma sub_rep3_single c x :
  starts c x = false -> sub_rep3 (c :: x) = c :: sub_rep3 x.
Proof.
  intros Hx. rewrite sub_rep3_cons. unfold matches.
  apply run_0_starts in Hx. rewrite Hx. simpl. now rewrite andb_false_r.
Qed.

Lemma sub_rep3_double c x :
  starts c x = false -> sub_rep3 (c :: c :: x) = c :: c :: sub_rep3 x.
Proof.
  intros Hx. rewrite sub_rep3_cons. unfold matches. simpl run.
  rewrite N.eqb_refl. apply run_0_starts in Hx as Hr. rewrite Hr. simpl.
  rewrite andb_false_r. now rewrite sub_rep3_single.
Qed.

(** Line feeds are copied, however many. *)
Lemma sub_rep3_line_feeds n x : sub_rep3 (rep LF n ++ x) = rep LF n ++ sub_rep3 x.
Proof.
  induction n as [|n IH]; [reflexivity|].
  change (rep LF (S n) ++ x) with (LF :: rep LF n ++ x).
  rewrite sub_rep3_cons. unfold matches. change (dot LF) with false.
  cbn [andb]. now rewrite IH.
Qed.

End Normalizer.

(* ------------------------------------------------------------------ *)
(** ** Facts about the loader *)

Section LoaderFacts.

Import Loader.

Lemma dict_get_absent key members default :
  existsb (fun kv => str_eqb (fst kv) key) members = false ->
  dict_get key members default = default.
Proof.
  revert default. induction members as [|[k v] rest IH]; intros default H.
  - reflexivity.
  - simpl in H. apply orb_false_iff in H as [Hk Hrest].
    simpl. rewrite Hk. now apply IH.
Qed.

Lemma open_and_load_raises f e : open_and_load f = Raise e -> is_Exception e = true.
Proof. destruct f; simpl; intros H; inversion H; reflexivity. Qed.

End LoaderFacts.

(* ------------------------------------------------------------------ *)
(** ** Facts about the pipeline *)

Section Pipeline.

Context {Tokenizer Model Pipeline : Type}.
Variable self : PersianSwearWordRemover Tokenizer Model Pipeline.

(** The loop appends the benign tokens to the first list and the offensive
    ones to the second. *)
Lemma loop_from tokens : forall cleaned detected,
  fold_left (loop_body self) tokens (cleaned, detected)
  = (cleaned ++ filter (fun token => negb (is_swear_word self token)) tokens,
     detected ++ filter (is_swear_word self) tokens).
Proof.
  induction tokens as [|t ts IH]; intros cleaned detected; simpl.
  - now rewrite !app_nil_r.
  - destruct (is_swear_word self t); simpl;
      rewrite IH, <- app_assoc; reflexivity.
Qed.

Lemma loop_spec tokens :
  loop self tokens
  = (filter (fun token => negb (is_swear_word self token)) tokens,
     filter (is_swear_word self) tokens).
Proof. unfold loop. now rewrite loop_from. Qed.

Lemma partition_length tokens :
  length (filter (fun token => negb (is_swear_word self token)) tokens)
  + length (filter (is_swear_word self) tokens) = length tokens.
Proof.
  induction tokens as [|t ts IH]; [reflexivity|]. simpl.
  destruct (is_swear_word self t); simpl; lia.
Qed.

(** What a call returns, in closed form. *)
Lemma remove_persian_swear_words_eq text :
  let tokens := split (normalize_text text) in
  remove_persian_swear_words self text
  = Return {| cleaned_text :=
                join [SPACE]
                  (filter (fun token => negb (is_swear_word self token)) tokens);
              detected_swear_words := filter (is_swear_word self) tokens;
              swear_word_percentage :=
                if is_nil tokens then 0%Q
                else ((Z.of_nat (length (filter (is_swear_word self) tokens))
                       # Pos.of_nat (length tokens)) * 100)%Q |}.
Proof.
  intros tokens. unfold remove_persian_swear_words. fold tokens.
  rewrite loop_spec. destruct tokens; reflexivity.
Qed.

End Pipeline.

Lemma empty_lexicon_never_matches {T M P}
    (self : PersianSwearWordRemover T M P) token :
  swear_words self = [] -> is_swear_word self token = false.
Proof. unfold is_swear_word. now intros ->. Qed.

Lemma remove_by_lexicon {T M P} (self : PersianSwearWordRemover T M P) text :
  remove_persian_swear_words self text
  = remove_persian_swear_words (with_lexicon (swear_words self)) text.
Proof. reflexivity. Qed.

Lemma filter_all {A} (p : A -> bool) l : (forall x, p x = true) -> filter p l = l.
Proof.
  intros H. induction l as [|x l IH]; [reflexivity|]. simpl. now rewrite H, IH.
Qed.

Lemma filter_none {A} (p : A -> bool) l : (forall x, p x = false) -> filter p l = [].
Proof.
  intros H. induction l as [|x l IH]; [reflexivity|]. simpl. now rewrite H.
Qed.

Lemma pos_of_nat_Z n : n <> 0 -> Zpos (Pos.of_nat n) = Z.of_nat n.
Proof. intros H. destruct n; [congruence|]. lia. Qed.

(* ------------------------------------------------------------------ *)
(** ** Facts about binary64 rounding *)

Section Binary64Facts.

Import Binary64.
Local Open Scope Z_scope.

Lemma rne_cases a b : 0 < b ->
  exists q r, a = b * q + r /\ 0 <= r < b /\
    (rne a b = q /\ 2 * r <= b \/ rne a b = q + 1 /\ b <= 2 * r).
Proof.
  intros Hb. exists (a / b), (a mod b).
  split; [apply Z.div_mod; lia|]. split; [apply Z.mod_pos_bound; lia|].
  unfold rne. destruct (Z.compare_spec (2 * (a mod b)) b) as [E|E|E].
  - destruct (Z.even (a / b)); [left | right]; split; lia.
  - left. split; lia.
  - right. split; lia.
Qed.

(** Rounding to an integer does not cross an integer. *)
Lemma rne_le a b N : 0 < b -> a <= N * b -> rne a b <= N.
Proof.
  intros Hb H.
  destruct (rne_cases a b Hb) as (q & r & Ha & Hr & [[-> _]|[-> Hh]]); nia.
Qed.

(** It moves the quotient by at most one half. *)
Lemma rne_err a b : 0 < b -> - b <= 2 * (rne a b * b - a) <= b.
Proof.
  intros Hb.
  destruct (rne_cases a b Hb) as (q & r & Ha & Hr & [[-> Hh]|[-> Hh]]); nia.
Qed.

Lemma scaled_pos n d e : let (a, b) := scaled n d e in 0 < a /\ 0 < b.
Proof.
  unfold scaled. destruct (Z.leb_spec 0 e).
  - split; [lia|]. assert (0 < 2 ^ e) by (apply Z.pow_pos_nonneg; lia). nia.
  - split; [|lia]. assert (0 < 2 ^ (- e)) by (apply Z.pow_pos_nonneg; lia). nia.
Qed.

(** The significand has 53 bits: it is at least [2^52]. *)
Lemma exponent_lower n d :
  let (a, b) := scaled n d (exponent n d) in 2 ^ 52 * b <= a.
Proof.
  unfold exponent.
  set (e0 := Z.log2 (Z.pos n) - Z.log2 (Z.pos d) - 52).
  destruct (scaled n d e0) as [a0 b0] eqn:E0.
  destruct (Z.leb_spec (2 ^ 52 * b0) a0) as [H|H].
  - now rewrite E0.
  - clear E0 H a0 b0.
    pose proof (Z.log2_spec (Z.pos n) ltac:(lia)) as [Hn _].
    pose proof (Z.log2_spec (Z.pos d) ltac:(lia)) as [_ Hd].
    pose proof (Z.log2_nonneg (Z.pos n)) as Hln.
    pose proof (Z.log2_nonneg (Z.pos d)) as Hld.
    set (ln := Z.log2 (Z.pos n)) in *. set (ld := Z.log2 (Z.pos d)) in *.
    replace (Z.succ ld) with (ld + 1) in Hd by lia.
    unfold scaled. destruct (Z.leb_spec 0 (e0 - 1)) as [He|He].
    + assert (Hpow : 2 ^ ln = 2 ^ 52 * (2 ^ (ld + 1) * 2 ^ (e0 - 1))).
      { rewrite <- !Z.pow_add_r by lia. f_equal. unfold e0. lia. }
      assert (0 < 2 ^ (e0 - 1)) by (apply Z.pow_pos_nonneg; lia).
      nia.
    + assert (Hpow : 2 ^ ln * 2 ^ (- (e0 - 1)) = 2 ^ 52 * 2 ^ (ld + 1)).
      { rewrite <- !Z.pow_add_r by lia. f_equal. unfold e0. lia. }
      assert (0 < 2 ^ (- (e0 - 1))) by (apply Z.pow_pos_nonneg; lia).
      nia.
Qed.

(** One rounding moves a positive value by at most one part in [2^53]. *)
Lemma round_pos_error n d :
  ((Zpos n # d) * below <= round_pos n d /\
   round_pos n d <= (Zpos n # d) * above)%Q.
Proof.
  unfold round_pos. pose proof (exponent_lower n d) as Hlow.
  pose proof (scaled_pos n d (exponent n d)) as Hpos.
  set (e := exponent n d) in *. unfold scaled in *.
  change (2 ^ 52) with 4503599627370496 in Hlow.
  destruct (Z.leb_spec 0 e) as [He|He]; destruct Hpos as [_ Hb].
  - pose proof (rne_err (Zpos n) (Zpos d * 2 ^ e) Hb) as Herr.
    set (m := rne (Zpos n) (Zpos d * 2 ^ e)) in *.
    set (P := 2 ^ e) in *.
    unfold Qle, Qmult, below, above, inject_Z. cbn [Qnum Qden].
    rewrite !Pos2Z.inj_mul. nia.
  - pose proof (rne_err (Zpos n * 2 ^ (- e)) (Zpos d) Hb) as Herr.
    set (m := rne (Zpos n * 2 ^ (- e)) (Zpos d)) in *.
    assert (HP : 0 < 2 ^ (- e)) by (apply Z.pow_pos_nonneg; lia).
    unfold Qle, Qmult, below, above. cbn [Qnum Qden].
    rewrite !Pos2Z.inj_mul, Z2Pos.id by exact HP.
    set (P := 2 ^ (- e)) in *. nia.
Qed.

(** Rounding does not cross an integer below [2^53]. *)
Lemma round_pos_le_int n d c :
  Zpos n <= c * Zpos d -> c < 2 ^ 53 -> (round_pos n d <= inject_Z c)%Q.
Proof.
  intros Hx Hc. unfold round_pos. pose proof (exponent_lower n d) as Hlow.
  pose proof (scaled_pos n d (exponent n d)) as Hpos.
  set (e := exponent n d) in *. unfold scaled in *.
  change (2 ^ 52) with 4503599627370496 in Hlow.
  change (2 ^ 53) with 9007199254740992 in Hc.
  destruct (Z.leb_spec 0 e) as [He|He]; destruct Hpos as [_ Hb].
  - assert (HP : 0 < 2 ^ e) by (apply Z.pow_pos_nonneg; lia).
    assert (He0 : e = 0).
    { destruct (Z.eq_dec e 0) as [|Hne]; [assumption|].
      assert (2 ^ 1 <= 2 ^ e) by (apply Z.pow_le_mono_r; lia).
      change (2 ^ 1) with 2 in *. nia. }
    rewrite He0 in *. change (2 ^ 0) with 1 in *.
    pose proof (rne_le (Zpos n) (Zpos d * 1) c Hb ltac:(lia)) as Hm.
    unfold Qle, inject_Z. cbn [Qnum Qden]. lia.
  - assert (HP : 0 < 2 ^ (- e)) by (apply Z.pow_pos_nonneg; lia).
    pose proof (rne_le (Zpos n * 2 ^ (- e)) (Zpos d) (c * 2 ^ (- e)) Hb
                  ltac:(nia)) as Hm.
    unfold Qle, inject_Z. cbn [Qnum Qden]. rewrite Z2Pos.id by exact HP. lia.
Qed.

Lemma round64_error x :
  (0 < x)%Q -> (x * below <= round64 x /\ round64 x <= x * above)%Q.
Proof.
  destruct x as [[|n|n] d]; intros Hx; try (unfold Qlt in Hx; cbn in Hx; lia).
  apply round_pos_error.
Qed.

Lemma round64_nonneg x : (0 <= x)%Q -> (0 <= round64 x)%Q.
Proof.
  destruct x as [[|n|n] d]; intros Hx; unfold round64; cbn [Qnum Qden].
  - apply Qle_refl.
  - pose proof (round_pos_error n d) as [H _].
    assert (0 <= (Zpos n # d) * below)%Q by (unfold Qle, Qmult, below; cbn; lia).
    eapply Qle_trans; eassumption.
  - unfold Qle in Hx; cbn in Hx; lia.
Qed.

Lemma round64_le_int x c :
  (0 <= x)%Q -> (x <= inject_Z c)%Q -> c < 2 ^ 53 ->
  (round64 x <= inject_Z c)%Q.
Proof.
  destruct x as [[|n|n] d]; intros H0 Hx Hc; unfold round64; cbn [Qnum Qden].
  - unfold Qle in *. cbn in *. lia.
  - apply round_pos_le_int; [|exact Hc]. unfold Qle in Hx. cbn in Hx. lia.
  - unfold Qle in H0; cbn in H0; lia.
Qed.

End Binary64Facts.

(** [(d / t) * 100] in binary64, for [d] detected tokens out of [t]. *)
Lemma percentage_binary64_bounds d t :
  d <= t -> t <> 0 ->
  (0 <= mul_binary64 (Binary64.round64 (Z.of_nat d # Pos.of_nat t)) 100 <= 100)%Q.
Proof.
  intros Hd Ht. unfold mul_binary64.
  pose proof (pos_of_nat_Z t Ht) as Hp.
  set (q := (Z.of_nat d # Pos.of_nat t)%Q).
  assert (Hq0 : (0 <= q)%Q) by (unfold Qle, q; cbn; lia).
  assert (Hq1 : (q <= inject_Z 1)%Q) by (unfold Qle, q; cbn; lia).
  pose proof (round64_nonneg q Hq0) as Hr0.
  pose proof (round64_le_int q 1 Hq0 Hq1 eq_refl) as Hr1.
  set (r := Binary64.round64 q) in *. change (inject_Z 1) with 1%Q in *.
  assert (H0 : (0 <= r * 100)%Q) by lra.
  assert (H1 : (r * 100 <= inject_Z 100)%Q)
    by (change (inject_Z 100) with 100%Q; lra).
  split; [now apply round64_nonneg | apply (round64_le_int _ 100 H0 H1 eq_refl)].
Qed.

Lemma percentage_binary64_error d t :
  t <> 0 ->
  let exact := (100 * inject_Z (Z.of_nat d) / inject_Z (Z.of_nat t))%Q in
  (exact * (1 - (1 # 2251799813685248))
   <= mul_binary64 (Binary64.round64 (Z.of_nat d # Pos.of_nat t)) 100 /\
   mul_binary64 (Binary64.round64 (Z.of_nat d # Pos.of_nat t)) 100
   <= exact * (1 + (1 # 2251799813685248)))%Q.
Proof.
  intros Ht exact. unfold mul_binary64.
  pose proof (pos_of_nat_Z t Ht) as Hp.
  set (q := (Z.of_nat d # Pos.of_nat t)%Q).
  assert (Hex : (exact == q * 100)%Q).
  { unfold exact, q. rewrite (Qmake_Qdiv (Z.of_nat d) (Pos.of_nat t)), Hp.
    unfold Qdiv. ring. }
  destruct d as [|d].
  - assert (Hz : (exact == 0)%Q) by (rewrite Hex; reflexivity).
    rewrite Hz. cbn. split; discriminate.
  - assert (Hq : (0 < q)%Q) by (unfold Qlt, q; cbn; lia).
    destruct (round64_error q Hq) as [Ha Hb].
    set (r := Binary64.round64 q) in *.
    assert (Hr : (0 < r * 100)%Q) by (unfold Binary64.below in Ha; lra).
    destruct (round64_error (r * 100)%Q Hr) as [Hc Hd].
    rewrite Hex. unfold Binary64.below, Binary64.above in *. split; lra.
Qed.

Lemma remove_persian_swear_words_binary64_eq {T M P}
    (self : PersianSwearWordRemover T M P) text :
  let tokens := split (normalize_text text) in
  remove_persian_swear_words_binary64 self text
  = Return {| cleaned_text :=
                join [SPACE]
                  (filter (fun token => negb (is_swear_word self token)) tokens);
              detected_swear_words := filter (is_swear_word self) tokens;
              swear_word_percentage :=
                if is_nil tokens then 0%Q
                else mul_binary64
                       (Binary64.round64
                          (Z.of_nat (length (filter (is_swear_word self) tokens))
                           # Pos.of_nat (length tokens))) 100 |}.
Proof.
  intros tokens. unfold remove_persian_swear_words_binary64. fold tokens.
  rewrite loop_spec. destruct tokens; reflexivity.
Qed.

(* ------------------------------------------------------------------ *)
(** ** The specification's claims *)

(** C1. The tokens of the normalised document are split, in their order, into
    the clean tokens (those [is_swear_word] rejects) and the detected ones
    (those it accepts); the two lengths add up to the number of tokens;
    [cleaned_text] is the clean tokens joined by one space and
    [detected_swear_words] the detected ones. *)
Theorem remove_partitions_tokens {T M P}
    (self : PersianSwearWordRemover T M P) (text : str) :
  let tokens := split (normalize_text text) in
  let clean := fst (loop self tokens) in
  let detected := snd (loop self tokens) in
  clean = filter (fun token => negb (is_swear_word self token)) tokens /\
  detected = filter (is_swear_word self) tokens /\
  length clean + length detected = length tokens /\
  exists result,
    remove_persian_swear_words self text = Return result /\
    cleaned_text result = join [SPACE] clean /\
    detected_swear_words result = detected.
Proof.
  intros tokens clean detected. subst clean detected.
  rewrite loop_spec. cbn [fst snd]. repeat split.
  - apply partition_length.
  - eexists. split; [apply remove_persian_swear_words_eq | split; reflexivity].
Qed.

(** C2. [is_swear_word] holds exactly when some fragment of the lexicon occurs
    in the normalised token as a contiguous substring, compared code point by
    code point; with an empty lexicon it never holds. *)
Theorem is_swear_word_iff_substring {T M P}
    (self : PersianSwearWordRemover T M P) (token : str) :
  (is_swear_word self token = true <->
   exists fragment pre post,
     In fragment (swear_words self) /\
     normalize_text token = pre ++ fragment ++ post) /\
  (swear_words self = [] -> is_swear_word self token = false).
Proof.
  unfold is_swear_word. split.
  - rewrite existsb_exists. split.
    + intros (fragment & Hin & Hc). apply contains_spec in Hc as (pre & post & E).
      now exists fragment, pre, post.
    + intros (fragment & pre & post & Hin & E). exists fragment. split; [exact Hin|].
      apply contains_spec. now exists pre, post.
  - intros ->. reflexivity.
Qed.

Lemma is_swear_word_iff_substring_witness :
  swear_words (with_lexicon []) = [] /\
  is_swear_word (with_lexicon []) (lit "ubadx") = false /\
  is_swear_word (with_lexicon [lit "bad"]) (lit "ubadx") = true.
Proof.
  split; [reflexivity | split].
  - apply (is_swear_word_iff_substring (with_lexicon []) (lit "ubadx")). reflexivity.
  - apply (is_swear_word_iff_substring (with_lexicon [lit "bad"]) (lit "ubadx")).
    exists (lit "bad"), (lit "u"), (lit "x").
    split; [left; reflexivity | reflexivity].
Defined.

(** C3. [normalize_text] is idempotent. *)
Theorem normalize_text_idempotent (t : str) :
  normalize_text (normalize_text t) = normalize_text t.
Proof. unfold normalize_text. apply (sub_rep3_idem_bounded (length t)). lia. Qed.

(** C4, as stated, fails for the line feed, which [.] does not match: three
    line feeds are not collapsed to one. *)
Lemma line_feed_run_not_collapsed :
  (3 <= 3)%nat /\ ends LF [] = false /\ starts LF [] = false /\
  normalize_text ([] ++ rep LF 3 ++ []) <> normalize_text ([] ++ [LF] ++ []).
Proof. repeat split; [lia | discriminate]. Qed.

(** C4, amended. For a character [c] other than the line feed, a count
    [n >= 3], [s] not ending with [c] and [s2] not starting with [c]:
    normalising [s + c*n + s2] gives what normalising [s + c + s2] gives,
    namely the normalised [s], one [c], the normalised [s2]; a run of exactly
    two [c] stays. *)
Theorem normalize_text_collapses_runs (c : char) (n : nat) (s s2 : str) :
  c <> LF -> 3 <= n -> ends c s = false -> starts c s2 = false ->
  normalize_text (s ++ rep c n ++ s2) = normalize_text (s ++ [c] ++ s2) /\
  normalize_text (s ++ rep c n ++ s2)
    = normalize_text s ++ [c] ++ normalize_text s2 /\
  normalize_text (s ++ [c; c] ++ s2)
    = normalize_text s ++ [c; c] ++ normalize_text s2.
Proof.
  intros Hc Hn Hs Hs2. unfold normalize_text.
  assert (D : Re.dot c = true)
    by (unfold Re.dot; apply negb_true_iff, N.eqb_neq, Hc).
  assert (Long : Re.sub_rep3 (s ++ rep c n ++ s2)
                 = Re.sub_rep3 s ++ [c] ++ Re.sub_rep3 s2).
  { destruct n as [|[|[|n]]]; try lia.
    change (rep c (S (S (S n))) ++ s2) with (c :: rep c (2 + n) ++ s2).
    rewrite (sub_rep3_app s c _ Hs).
    change (c :: rep c (2 + n) ++ s2) with (rep c (3 + n) ++ s2).
    now rewrite (sub_rep3_long_run c n s2 D Hs2). }
  assert (One : Re.sub_rep3 (s ++ [c] ++ s2)
                = Re.sub_rep3 s ++ [c] ++ Re.sub_rep3 s2).
  { cbn [app]. rewrite (sub_rep3_app s c _ Hs).
    now rewrite (sub_rep3_single c s2 Hs2). }
  repeat split.
  - now rewrite Long, One.
  - exact Long.
  - cbn [app]. rewrite (sub_rep3_app s c _ Hs).
    now rewrite (sub_rep3_double c s2 Hs2).
Qed.

Lemma normalize_text_collapses_runs_witness :
  110%N <> LF /\ 3 <= 3 /\
  ends 110%N (lit "dam") = false /\ starts 110%N (lit " person") = false /\
  normalize_text (lit "dam" ++ rep 110%N 3 ++ lit " person")
  = normalize_text (lit "dam" ++ [110%N] ++ lit " person").
Proof.
  split; [discriminate | split; [lia | split; [reflexivity | split; [reflexivity|]]]].
  apply (normalize_text_collapses_runs 110%N 3 (lit "dam") (lit " person"));
    [discriminate | lia | reflexivity | reflexivity].
Defined.

(** C5, as stated, fails on the equality: with 11 tokens detected out of 20
    the percentage is [55.00000000000001], not [100 * 11 / 20 = 55]; the
    quotient [11/20] is rounded before it is multiplied. *)
Lemma percentage_differs_from_exact_ratio :
  exists result,
    remove_persian_swear_words_binary64 (with_lexicon [lit "x"])
      (lit "x x x x x x x x x x x a a a a a a a a a") = Return result /\
    length (detected_swear_words result) = 11 /\
    length (split (normalize_text (lit "x x x x x x x x x x x a a a a a a a a a")))
    = 20 /\
    (swear_word_percentage result == 7740561859543041 # 140737488355328)%Q /\
    ~ (swear_word_percentage result == 100 * 11 / 20)%Q.
Proof.
  eexists. split; [reflexivity|].
  split; [vm_compute; reflexivity|]. split; [vm_compute; reflexivity|].
  split; [vm_compute; reflexivity|].
  intros H. vm_compute in H. discriminate H.
Qed.

(** C5, amended. A call returns (the division is never by zero) and detects
    the tokens [is_swear_word] accepts.  Its percentage is exactly [0] when
    there is no token; otherwise it is [(|detected| / |tokens|) * 100] in
    binary64, the quotient rounded and then the product, which is within one
    part in [2^51] of [100 * |detected| / |tokens|]; it always lies between
    [0] and [100]. *)
Theorem percentage_binary64_spec {T M P}
    (self : PersianSwearWordRemover T M P) (text : str) :
  let tokens := split (normalize_text text) in
  let detected := filter (is_swear_word self) tokens in
  let exact :=
    (100 * inject_Z (Z.of_nat (length detected))
     / inject_Z (Z.of_nat (length tokens)))%Q in
  exists result,
    remove_persian_swear_words_binary64 self text = Return result /\
    detected_swear_words result = detected /\
    (if is_nil tokens
     then swear_word_percentage result = 0%Q
     else swear_word_percentage result
          = Binary64.round64
              (Binary64.round64
                 (Z.of_nat (length detected) # Pos.of_nat (length tokens)) * 100) /\
          (exact * (1 - (1 # 2251799813685248)) <= swear_word_percentage result)%Q /\
          (swear_word_percentage result <= exact * (1 + (1 # 2251799813685248)))%Q) /\
    (0 <= swear_word_percentage result <= 100)%Q.
Proof.
  cbv zeta. eexists. split; [apply remove_persian_swear_words_binary64_eq|].
  cbn [detected_swear_words swear_word_percentage]. split; [reflexivity|].
  pose proof (filter_length_le (is_swear_word self) (split (normalize_text text)))
    as Hd.
  destruct (split (normalize_text text)) as [|t ts].
  - cbn [is_nil]. split; [reflexivity | split; discriminate].
  - remember (t :: ts) as tokens eqn:E.
    assert (Ht : length tokens <> 0) by (rewrite E; discriminate).
    replace (is_nil tokens) with false by (rewrite E; reflexivity).
    split.
    + split; [reflexivity|].
      apply (percentage_binary64_error
               (length (filter (is_swear_word self) tokens)) (length tokens) Ht).
    + now apply percentage_binary64_bounds.
Qed.

(** C6. [load_swear_words] never raises; when opening or parsing the file
    fails, and when the parsed document has no ["swear_words"] member, it
    returns the empty list. *)
Theorem load_swear_words_fail_open (f : Loader.file) :
  (exists lexicon, Loader.load_swear_words f = Return lexicon) /\
  (forall e, Loader.open_and_load f = Raise e ->
             Loader.load_swear_words f = Return (Loader.JArr [])) /\
  (forall data, Loader.open_and_load f = Return data ->
                Loader.has_key Loader.swear_words_key data = false ->
                Loader.load_swear_words f = Return (Loader.JArr [])).
Proof.
  unfold Loader.load_swear_words. split; [|split].
  - destruct f as [| | | | |data]; try (eexists; reflexivity).
    destruct data; eexists; reflexivity.
  - intros e He. rewrite He. cbn. now rewrite (open_and_load_raises f e He).
  - intros data Hd Hk. rewrite Hd. cbn [bind].
    destruct data; try reflexivity.
    cbn in Hk |- *. now rewrite (dict_get_absent _ _ _ Hk).
Qed.

Lemma load_swear_words_fail_open_witness :
  Loader.load_swear_words Loader.Malformed = Return (Loader.JArr []) /\
  Loader.load_swear_words
    (Loader.Document (Loader.JObj [(lit "words", Loader.JArr [Loader.JStr (lit "x")])]))
  = Return (Loader.JArr []).
Proof.
  split.
  - apply (proj1 (proj2 (load_swear_words_fail_open Loader.Malformed))
             JSONDecodeError).
    reflexivity.
  - apply (proj2 (proj2 (load_swear_words_fail_open
                            (Loader.Document
                               (Loader.JObj
                                  [(lit "words", Loader.JArr [Loader.JStr (lit "x")])]))))
             (Loader.JObj [(lit "words", Loader.JArr [Loader.JStr (lit "x")])]));
      reflexivity.
Defined.

(** C7, as stated, fails: with an empty lexicon the text does not come back
    unchanged when its spacing is irregular (nor when it holds a run of three
    or more). *)
Lemma empty_lexicon_changes_text :
  swear_words (with_lexicon []) = [] /\
  exists result,
    remove_persian_swear_words (with_lexicon []) (lit "a  b") = Return result /\
    cleaned_text result = lit "a b" /\
    cleaned_text result <> lit "a  b".
Proof.
  split; [reflexivity|]. eexists. split; [reflexivity|].
  split; [reflexivity | discriminate].
Qed.

(** C7, amended. With an empty lexicon nothing is detected, the percentage
    is zero, and the cleaned text is the tokens of the normalised text joined
    by one space: the text itself when it is made of words separated by one
    space and normalisation leaves it as it is. *)
Theorem empty_lexicon_passthrough {T M P}
    (self : PersianSwearWordRemover T M P) (text : str) :
  swear_words self = [] ->
  exists result,
    remove_persian_swear_words self text = Return result /\
    cleaned_text result = join [SPACE] (split (normalize_text text)) /\
    detected_swear_words result = [] /\
    (swear_word_percentage result == 0)%Q /\
    (forall words,
        forallb is_word words = true -> text = join [SPACE] words ->
        normalize_text text = text -> cleaned_text result = text).
Proof.
  intros Hlex. eexists. split; [apply remove_persian_swear_words_eq|].
  cbn [cleaned_text detected_swear_words swear_word_percentage].
  assert (Hnone : forall token, is_swear_word self token = false)
    by (intros token; apply empty_lexicon_never_matches, Hlex).
  rewrite (filter_none _ _ Hnone).
  rewrite (filter_all (fun token => negb (is_swear_word self token)))
    by (intros token; now rewrite Hnone).
  repeat split.
  - destruct (split (normalize_text text)); reflexivity.
  - intros words Hw Ht Hn. rewrite Hn, Ht, split_join by exact Hw. reflexivity.
Qed.

Lemma empty_lexicon_passthrough_witness :
  swear_words (with_lexicon []) = [] /\
  exists result,
    remove_persian_swear_words (with_lexicon []) (lit "hello world") = Return result /\
    cleaned_text result = lit "hello world".
Proof.
  split; [reflexivity|].
  destruct (empty_lexicon_passthrough (with_lexicon []) (lit "hello world") eq_refl)
    as (result & Hr & _ & _ & _ & Hsame).
  exists result. split; [exact Hr|].
  apply (Hsame [lit "hello"; lit "world"]); reflexivity.
Defined.

(** C8. The result depends on the lexicon and on the text only: two
    instances with the same [swear_words], whatever their tokenizer, model
    and pipeline, return the same result on the same text. *)
Theorem redaction_depends_on_lexicon_only {T1 M1 P1 T2 M2 P2}
    (a : PersianSwearWordRemover T1 M1 P1) (b : PersianSwearWordRemover T2 M2 P2)
    (text : str) :
  swear_words a = swear_words b ->
  remove_persian_swear_words a text = remove_persian_swear_words b text.
Proof.
  intros H. rewrite (remove_by_lexicon a), (remove_by_lexicon b), H. reflexivity.
Qed.

Lemma redaction_depends_on_lexicon_only_witness :
  let a := {| tokenizer := 1; model := true; pipeline := tt;
              swear_words := [lit "bad"] |} in
  let b := {| tokenizer := lit "vocab"; model := 7%Z; pipeline := [0; 1];
              swear_words := [lit "bad"] |} in
  swear_words a = swear_words b /\
  remove_persian_swear_words a (lit "a bad day")
  = remove_persian_swear_words b (lit "a bad day").
Proof.
  intros a b. split; [reflexivity|].
  apply (redaction_depends_on_lexicon_only a b (lit "a bad day")). reflexivity.
Defined.

(** C9. With lexicon [["damn"]] and text ["you damnnn person"] the detected
    words are [["damn"]], the cleaned text is ["you person"], and the
    percentage is 33.33 to two decimals: the float [33.33333333333333], which
    lies within half a hundredth of 33.33 and which [main] prints as
    ["33.33"]. *)
Theorem damn_example_binary64 :
  exists result,
    remove_persian_swear_words_binary64 (with_lexicon [lit "damn"])
      (lit "you damnnn person") = Return result /\
    detected_swear_words result = [lit "damn"] /\
    cleaned_text result = lit "you person" /\
    (swear_word_percentage result == 2345624805922133 # 70368744177664)%Q /\
    ((3333 # 100) - (1 # 200) < swear_word_percentage result)%Q /\
    (swear_word_percentage result < (3333 # 100) + (1 # 200))%Q /\
    render_2f (swear_word_percentage result) = lit "33.33".
Proof.
  eexists. split; [reflexivity|].
  repeat (split; [vm_compute; reflexivity|]). vm_compute. reflexivity.
Qed.

(** C10. When the empty string is in the lexicon, [is_swear_word] holds for
    every token, so every token of every document is detected: the cleaned
    text is empty and the percentage is [100] unless there is no token. *)
Theorem empty_fragment_detects_everything {T M P}
    (self : PersianSwearWordRemover T M P) (text : str) :
  In [] (swear_words self) ->
  (forall token, is_swear_word self token = true) /\
  exists result,
    remove_persian_swear_words self text = Return result /\
    cleaned_text result = [] /\
    detected_swear_words result = split (normalize_text text) /\
    (swear_word_percentage result
     == if is_nil (split (normalize_text text)) then 0 else 100)%Q.
Proof.
  intros Hin.
  assert (Hall : forall token, is_swear_word self token = true).
  { intros token. unfold is_swear_word. apply existsb_exists.
    exists []. split; [exact Hin | apply contains_empty]. }
  split; [exact Hall|].
  eexists. split; [apply remove_persian_swear_words_eq|].
  cbn [cleaned_text detected_swear_words swear_word_percentage].
  rewrite (filter_all _ _ Hall).
  rewrite (filter_none (fun token => negb (is_swear_word self token)))
    by (intros token; now rewrite Hall).
  repeat split.
  destruct (split (normalize_text text)) as [|t ts] eqn:E; [reflexivity|].
  cbn [is_nil]. unfold Qeq, Qmult. cbn [Qnum Qden].
  rewrite Pos2Z.inj_mul, pos_of_nat_Z by discriminate. lia.
Qed.

Lemma empty_fragment_detects_everything_witness :
  In [] (swear_words (with_lexicon [lit "bad"; []])) /\
  is_swear_word (with_lexicon [lit "bad"; []]) (lit "hello") = true /\
  exists result,
    remove_persian_swear_words (with_lexicon [lit "bad"; []]) (lit "hello world")
    = Return result /\
    cleaned_text result = [].
Proof.
  assert (Hin : In [] (swear_words (with_lexicon [lit "bad"; []])))
    by (right; left; reflexivity).
  destruct (empty_fragment_detects_everything
              (with_lexicon [lit "bad"; []]) (lit "hello world") Hin)
    as (Hall & result & Hr & Hc & _).
  split; [exact Hin | split; [apply Hall | exists result; split; assumption]].
Defined.

(* ------------------------------------------------------------------ *)
(** ** Further properties of the normaliser *)

Section NormalizerMore.

Import Re.

Lemma sub_rep3_length_bounded n :
  forall s, length s <= n -> length (sub_rep3 s) <= length s.
Proof.
  induction n as [|n IH]; intros [|c tl] H; simpl in H; try (simpl; lia).
  rewrite sub_rep3_cons. cbn [length].
  destruct (matches c tl).
  - pose proof (skip_length c tl). pose proof (IH (skip c tl)). lia.
  - pose proof (IH tl). lia.
Qed.

Lemma In_skip c d s : In c (skip d s) -> In c s.
Proof.
  induction s as [|e s IH]; [easy|]. cbn [skip].
  destruct (e =? d)%N; [intros H; right; auto | easy].
Qed.

Lemma In_skip_or c d s : In c s -> c = d \/ In c (skip d s).
Proof.
  induction s as [|e s IH]; [easy|]. cbn [skip].
  destruct (e =? d)%N eqn:E.
  - apply N.eqb_eq in E. subst e. intros [->|H]; [now left | auto].
  - intros H. now right.
Qed.

Lemma In_sub_rep3_bounded n :
  forall s c, length s <= n -> In c (sub_rep3 s) <-> In c s.
Proof.
  induction n as [|n IH]; intros [|d tl] c H; simpl in H; try lia; try easy.
  rewrite sub_rep3_cons. cbn [In].
  destruct (matches d tl).
  - rewrite IH by (pose proof (skip_length d tl); lia). split.
    + intros [->|Hin]; [now left | right; now apply In_skip in Hin].
    + intros [->|Hin]; [now left|].
      destruct (In_skip_or c d tl Hin) as [->|Hs]; [now left | now right].
  - rewrite IH by lia. reflexivity.
Qed.

Lemma In_sub_rep3 s c : In c (sub_rep3 s) <-> In c s.
Proof. apply (In_sub_rep3_bounded (length s)). lia. Qed.

Lemma has_repetition_sub_rep3_bounded n :
  forall s, length s <= n -> has_repetition (sub_rep3 s) = false.
Proof.
  induction n as [|n IH]; intros [|c tl] H; simpl in H; try lia; try reflexivity.
  rewrite sub_rep3_cons. cbn [has_repetition].
  rewrite matches_sub_rep3. cbn [orb]. apply IH.
  destruct (matches c tl); [pose proof (skip_length c tl)|]; lia.
Qed.

Lemma sub_rep3_fixed s : has_repetition s = false -> sub_rep3 s = s.
Proof.
  induction s as [|c tl IH]; [reflexivity|]. cbn [has_repetition].
  intros H. apply orb_false_iff in H as [Hm Hr].
  now rewrite sub_rep3_cons, Hm, IH.
Qed.

Lemma startswith_triple c tl :
  startswith [c; c; c] (c :: tl) = (2 <=? run c tl).
Proof.
  cbn [startswith]. rewrite N.eqb_refl. cbn [andb].
  destruct tl as [|d [|e tl]]; cbn [startswith run].
  - reflexivity.
  - rewrite N.eqb_sym. destruct (d =? c)%N; reflexivity.
  - rewrite (N.eqb_sym c d), (N.eqb_sym c e).
    destruct (d =? c)%N; [|reflexivity].
    destruct (e =? c)%N; reflexivity.
Qed.

Lemma startswith_head_neq c d tl : (d =? c)%N = false -> startswith [c; c; c] (d :: tl) = false.
Proof. intros H. cbn [startswith]. now rewrite N.eqb_sym, H. Qed.

(** No match of the pattern is the same as no three equal characters in a
    row, line feeds apart. *)
Lemma has_repetition_triple s :
  has_repetition s = false <->
  forall c, c <> LF -> contains [c; c; c] s = false.
Proof.
  induction s as [|d tl IH].
  - split; [intros _ c _; reflexivity | reflexivity].
  - cbn [has_repetition contains]. rewrite orb_false_iff, IH. split.
    + intros [Hm Hall] c Hc. rewrite (Hall c Hc), orb_false_r.
      destruct (d =? c)%N eqn:E; [|now apply startswith_head_neq].
      apply N.eqb_eq in E. subst d. rewrite startswith_triple.
      unfold matches, dot in Hm. apply N.eqb_neq in Hc. now rewrite Hc in Hm.
    + intros H. split.
      * unfold matches, dot. destruct (d =? LF)%N eqn:E; [reflexivity|].
        apply N.eqb_neq in E. specialize (H d E).
        apply orb_false_iff in H as [H _]. now rewrite startswith_triple in H.
      * intros c Hc. specialize (H c Hc). now apply orb_false_iff in H.
Qed.

End NormalizerMore.

Lemma normalize_text_idem_helper t :
  normalize_text (normalize_text t) = normalize_text t.
Proof. unfold normalize_text. apply (sub_rep3_idem_bounded (length t)). lia. Qed.

(** X1. Normalising never lengthens a text and keeps its set of characters:
    a character occurs in the result exactly when it occurs in the input. *)
Theorem normalize_text_keeps_characters (t : str) :
  length (normalize_text t) <= length t /\
  (forall c, In c (normalize_text t) <-> In c t).
Proof.
  split.
  - apply (sub_rep3_length_bounded (length t)). lia.
  - intros c. apply In_sub_rep3.
Qed.

(** X2. A normalised text never holds three equal characters in a row,
    unless they are line feeds. *)
Theorem normalize_text_has_no_triple (t : str) (c : char) :
  c <> LF -> contains [c; c; c] (normalize_text t) = false.
Proof.
  intros Hc. revert c Hc. apply has_repetition_triple.
  apply (has_repetition_sub_rep3_bounded (length t)). lia.
Qed.

Lemma normalize_text_has_no_triple_witness :
  111%N <> LF /\
  contains (lit "ooo") (normalize_text (lit "hello foooo wooorld")) = false.
Proof.
  split; [discriminate|].
  apply (normalize_text_has_no_triple (lit "hello foooo wooorld") 111%N).
  discriminate.
Defined.

(** X3. The texts normalisation leaves unchanged are exactly those without
    three equal characters in a row, line feeds apart. *)
Theorem normalize_text_fixed_points (t : str) :
  normalize_text t = t <->
  (forall c, c <> LF -> contains [c; c; c] t = false).
Proof.
  rewrite <- has_repetition_triple. split.
  - intros H. rewrite <- H.
    apply (has_repetition_sub_rep3_bounded (length t)). lia.
  - apply sub_rep3_fixed.
Qed.

Lemma normalize_text_fixed_points_witness :
  normalize_text (lit "aab good") = lit "aab good" /\
  contains (lit "ooo") (lit "aab good") = false.
Proof.
  split; [reflexivity|].
  apply (proj1 (normalize_text_fixed_points (lit "aab good")) eq_refl 111%N).
  discriminate.
Defined.

(* ------------------------------------------------------------------ *)
(** ** Further properties of the tokeniser *)

Lemma is_word_chars w : is_word w = true ->
  w <> [] /\ forallb (fun c => negb (isspace c)) w = true.
Proof.
  unfold is_word. intros H. apply andb_prop in H as [Hn Hw].
  split; [now destruct w | exact Hw].
Qed.

Lemma forallb_app_one (p : char -> bool) l c :
  forallb p l = true -> p c = true -> forallb p (l ++ [c]) = true.
Proof. intros Hl Hc. rewrite forallb_app, Hl. simpl. now rewrite Hc. Qed.

Lemma split_from_words cur s :
  forallb (fun c => negb (isspace c)) cur = true ->
  forallb is_word (split_from cur s) = true.
Proof.
  revert cur. induction s as [|c tl IH]; intros cur Hcur; cbn [split_from].
  - destruct cur; [reflexivity|]. cbn [is_nil forallb]. unfold is_word.
    cbn [is_nil negb andb]. now rewrite Hcur.
  - destruct (isspace c) eqn:E.
    + destruct cur as [|d cur]; cbn [is_nil].
      * now apply IH.
      * cbn [forallb]. rewrite (IH [] eq_refl), andb_true_r.
        unfold is_word. cbn [is_nil negb andb]. exact Hcur.
    + apply IH. apply forallb_app_one; [exact Hcur | now rewrite E].
Qed.

Lemma concat_split_from cur s :
  concat (split_from cur s) = cur ++ filter (fun c => negb (isspace c)) s.
Proof.
  revert cur. induction s as [|c tl IH]; intros cur; cbn [split_from filter].
  - destruct cur; cbn; [reflexivity | now rewrite !app_nil_r].
  - destruct (isspace c); cbn [negb].
    + destruct cur; cbn [is_nil concat]; rewrite IH; reflexivity.
    + rewrite IH, <- app_assoc. reflexivity.
Qed.

Lemma split_tokens_words_helper s : forallb is_word (split s) = true.
Proof. now apply split_from_words. Qed.

(** X4. Splitting loses whitespace only: every token is a non-empty string
    without whitespace, and the tokens put end to end are the text with its
    whitespace removed. *)
Theorem split_tokens_are_words (s : str) :
  forallb is_word (split s) = true /\
  concat (split s) = filter (fun c => negb (isspace c)) s.
Proof.
  split; [now apply split_from_words | apply (concat_split_from [] s)].
Qed.

Section SplitNormalize.

Import Re.

Lemma split_gap_cons c tl : isspace c = true -> split (c :: tl) = split tl.
Proof. unfold split. cbn [split_from is_nil]. now intros ->. Qed.

Lemma split_skip_gap c tl : isspace c = true -> split (skip c tl) = split tl.
Proof.
  intros Hc. induction tl as [|d tl IH]; [reflexivity|]. cbn [skip].
  destruct (d =? c)%N eqn:E; [|reflexivity].
  apply N.eqb_eq in E. subst d. now rewrite IH, split_gap_cons.
Qed.

Lemma split_word_app w rest :
  is_word w = true -> at_gap rest = true -> split (w ++ rest) = w :: split rest.
Proof.
  intros Hw Hg. apply is_word_chars in Hw as [Hne Hw]. unfold split.
  rewrite (split_from_word [] w rest Hw). cbn [app].
  destruct rest as [|c r]; cbn [split_from].
  - now destruct w.
  - cbn [at_gap] in Hg. rewrite Hg. cbn [is_nil]. now destruct w.
Qed.

(** A text is empty, begins with whitespace, or begins with a word that
    reaches the next whitespace or the end. *)
Lemma leading_word s :
  at_gap s = true \/
  exists w rest, s = w ++ rest /\ is_word w = true /\ at_gap rest = true.
Proof.
  induction s as [|c tl IH]; [now left|].
  destruct (isspace c) eqn:E; [now left | right].
  destruct IH as [Hg | (w & rest & -> & Hw & Hg)].
  - exists [c], tl. repeat split; [|exact Hg].
    unfold is_word. cbn. now rewrite E.
  - exists (c :: w), rest. repeat split; [|exact Hg].
    apply is_word_chars in Hw as [_ Hw]. unfold is_word. cbn. now rewrite E, Hw.
Qed.

Lemma is_word_sub_rep3 w : is_word w = true -> is_word (sub_rep3 w) = true.
Proof.
  intros H. apply is_word_chars in H as [Hne Hw]. unfold is_word.
  apply andb_true_intro. split.
  - destruct w as [|c tl]; [congruence|]. now rewrite sub_rep3_cons.
  - apply forallb_forall. intros c Hc. apply (proj1 (In_sub_rep3 w c)) in Hc.
    exact (proj1 (forallb_forall _ _) Hw c Hc).
Qed.

Lemma at_gap_sub_rep3 rest : at_gap (sub_rep3 rest) = at_gap rest.
Proof. destruct rest; [reflexivity | now rewrite sub_rep3_cons]. Qed.

Lemma word_ends_no_gap w c :
  forallb (fun c => negb (isspace c)) w = true -> isspace c = true ->
  ends c w = false.
Proof.
  intros Hw Hc. destruct (ends c w) eqn:E; [|reflexivity].
  apply ends_spec in E as [p ->]. rewrite forallb_app in Hw.
  apply andb_prop in Hw as [_ Hw]. cbn in Hw. now rewrite Hc in Hw.
Qed.

Lemma sub_rep3_word_app w rest :
  is_word w = true -> at_gap rest = true ->
  sub_rep3 (w ++ rest) = sub_rep3 w ++ sub_rep3 rest.
Proof.
  intros Hw Hg. destruct rest as [|c r]; [now rewrite !app_nil_r|].
  apply sub_rep3_app. apply is_word_chars in Hw as [_ Hw].
  now apply word_ends_no_gap.
Qed.

Lemma split_sub_rep3_bounded n :
  forall s, length s <= n -> split (sub_rep3 s) = map sub_rep3 (split s).
Proof.
  induction n as [|n IH]; intros s Hn.
  - destruct s; [reflexivity | simpl in Hn; lia].
  - destruct (leading_word s) as [Hg | (w & rest & -> & Hw & Hg)].
    + destruct s as [|c tl]; [reflexivity|]. cbn [at_gap] in Hg.
      simpl in Hn. rewrite sub_rep3_cons, !split_gap_cons by exact Hg.
      destruct (matches c tl).
      * rewrite IH by (pose proof (skip_length c tl); lia).
        now rewrite split_skip_gap.
      * apply IH. lia.
    + rewrite sub_rep3_word_app by assumption.
      rewrite split_word_app
        by (try apply is_word_sub_rep3; try rewrite at_gap_sub_rep3; assumption).
      rewrite (split_word_app w rest Hw Hg). cbn [map]. f_equal.
      apply IH. apply is_word_chars in Hw as [Hne _].
      rewrite length_app in Hn. destruct w; [congruence | simpl in Hn; lia].
Qed.

End SplitNormalize.

Lemma split_normalize_helper text :
  split (normalize_text text) = map normalize_text (split text).
Proof. apply (split_sub_rep3_bounded (length text)). lia. Qed.

(** X5. Normalising the whole document and then splitting it gives the same
    tokens as splitting it first and normalising each token: collapsing never
    joins or cuts tokens. *)
Theorem split_normalize_commute (text : str) :
  split (normalize_text text) = map normalize_text (split text).
Proof. apply (split_sub_rep3_bounded (length text)). lia. Qed.

(** X6. A token of the normalised document is already normalised, so the
    normalisation [is_swear_word] repeats on it changes nothing: inside the
    pipeline the test is plain containment of a fragment in the token. *)
Theorem pipeline_tokens_are_normalised {T M P}
    (self : PersianSwearWordRemover T M P) (text token : str) :
  In token (split (normalize_text text)) ->
  normalize_text token = token /\
  is_swear_word self token
  = existsb (fun fragment => contains fragment token) (swear_words self).
Proof.
  intros Hin. rewrite split_normalize_helper in Hin.
  apply in_map_iff in Hin as (raw & <- & _).
  assert (E : normalize_text (normalize_text raw) = normalize_text raw)
    by apply normalize_text_idem_helper.
  split; [exact E|]. unfold is_swear_word. now rewrite E.
Qed.

Lemma pipeline_tokens_are_normalised_witness :
  In (lit "damn") (split (normalize_text (lit "you damnnn person"))) /\
  normalize_text (lit "damn") = lit "damn".
Proof.
  assert (Hin : In (lit "damn") (split (normalize_text (lit "you damnnn person"))))
    by (right; left; reflexivity).
  split; [exact Hin|].
  apply (pipeline_tokens_are_normalised
           (with_lexicon [lit "damn"]) (lit "you damnnn person") (lit "damn") Hin).
Defined.

Lemma forallb_filter {A} (p q : A -> bool) l :
  forallb p l = true -> forallb p (filter q l) = true.
Proof.
  induction l as [|x l IH]; [reflexivity|]. cbn [forallb filter].
  intros H. apply andb_prop in H as [Hx Hl].
  destruct (q x); cbn [forallb]; [rewrite Hx|]; now apply IH.
Qed.

Lemma filter_In_false {A} (p : A -> bool) l x :
  In x (filter (fun y => negb (p y)) l) -> p x = false.
Proof. intros H. apply filter_In in H as [_ H]. now apply negb_true_iff. Qed.

(** X7. The cleaned text splits back into exactly the tokens that were kept,
    and none of them is a swear word: the join loses no token boundary. *)
Theorem cleaned_text_retokenises {T M P}
    (self : PersianSwearWordRemover T M P) (text : str) :
  exists result,
    remove_persian_swear_words self text = Return result /\
    split (cleaned_text result)
    = filter (fun token => negb (is_swear_word self token))
        (split (normalize_text text)) /\
    forallb (fun token => negb (is_swear_word self token))
      (split (cleaned_text result)) = true.
Proof.
  eexists. split; [apply remove_persian_swear_words_eq|]. cbn [cleaned_text].
  assert (E : split (join [SPACE]
                (filter (fun token => negb (is_swear_word self token))
                   (split (normalize_text text))))
              = filter (fun token => negb (is_swear_word self token))
                  (split (normalize_text text))).
  { apply split_join, forallb_filter, split_tokens_words_helper. }
  split; [exact E|]. rewrite E. apply forallb_forall.
  intros token Hin. now apply filter_In in Hin.
Qed.

Section Rejoin.

Import Re.

Lemma starts_space_word w x : is_word w = true -> starts SPACE (w ++ x) = false.
Proof.
  intros H. apply is_word_chars in H as [Hne Hw].
  destruct w as [|d w]; [congruence|]. cbn in Hw |- *.
  apply andb_prop in Hw as [Hd _]. apply negb_true_iff in Hd.
  destruct (d =? SPACE)%N eqn:E; [|reflexivity].
  apply N.eqb_eq in E. subst d. discriminate.
Qed.

Lemma starts_space_join w ws :
  is_word w = true -> starts SPACE (join [SPACE] (w :: ws)) = false.
Proof.
  intros H. destruct ws.
  - cbn [join]. rewrite <- (app_nil_r w). now apply starts_space_word.
  - cbn [join]. now apply starts_space_word.
Qed.

(** Normalising words joined by single spaces normalises each word. *)
Lemma sub_rep3_join words :
  forallb is_word words = true ->
  sub_rep3 (join [SPACE] words) = join [SPACE] (map sub_rep3 words).
Proof.
  induction words as [|w ws IH]; [reflexivity|]. intros H.
  cbn [forallb] in H. apply andb_prop in H as [Hw Hws].
  destruct ws as [|w' ws]; [reflexivity|].
  change (join [SPACE] (w :: w' :: ws))
    with (w ++ SPACE :: join [SPACE] (w' :: ws)).
  rewrite (sub_rep3_word_app w (SPACE :: join [SPACE] (w' :: ws)) Hw eq_refl).
  cbn [forallb] in Hws. apply andb_prop in Hws as [Hw' Hws'].
  rewrite sub_rep3_single by now apply starts_space_join.
  rewrite IH by (cbn [forallb]; now rewrite Hw', Hws').
  reflexivity.
Qed.

End Rejoin.

Lemma filter_twice {A} (p : A -> bool) l : filter p (filter p l) = filter p l.
Proof.
  induction l as [|x l IH]; [reflexivity|]. cbn [filter].
  destruct (p x) eqn:E; [cbn [filter]; now rewrite E, IH | exact IH].
Qed.

Lemma filter_opposite {A} (p : A -> bool) l :
  filter p (filter (fun y => negb (p y)) l) = [].
Proof.
  induction l as [|x l IH]; [reflexivity|]. cbn [filter].
  destruct (p x) eqn:E; cbn [negb filter]; [exact IH | now rewrite E].
Qed.

Lemma map_fixed {A} (f : A -> A) l : (forall x, In x l -> f x = x) -> map f l = l.
Proof.
  induction l as [|x l IH]; [reflexivity|]. intros H. cbn [map].
  rewrite (H x (or_introl eq_refl)), IH; [reflexivity|].
  intros y Hy. apply H. now right.
Qed.

(** X8. Redaction is idempotent: run on its own cleaned text it returns that
    text again, detects nothing and reports zero percent. *)
Theorem redaction_idempotent {T M P}
    (self : PersianSwearWordRemover T M P) (text : str) :
  exists first second,
    remove_persian_swear_words self text = Return first /\
    remove_persian_swear_words self (cleaned_text first) = Return second /\
    cleaned_text second = cleaned_text first /\
    detected_swear_words second = [] /\
    (swear_word_percentage second == 0)%Q.
Proof.
  eexists. eexists. split; [apply remove_persian_swear_words_eq|].
  split; [apply remove_persian_swear_words_eq|].
  cbn [cleaned_text detected_swear_words swear_word_percentage].
  set (tokens := split (normalize_text text)).
  set (kept := filter (fun token => negb (is_swear_word self token)) tokens).
  assert (Hwords : forallb is_word kept = true)
    by apply forallb_filter, split_tokens_words_helper.
  assert (Hfixed : map normalize_text kept = kept).
  { apply map_fixed. intros token Hin. apply filter_In in Hin as [Hin _].
    subst tokens. rewrite split_normalize_helper in Hin.
    apply in_map_iff in Hin as (raw & <- & _). apply normalize_text_idem_helper. }
  assert (Hnorm : normalize_text (join [SPACE] kept) = join [SPACE] kept).
  { unfold normalize_text at 1. rewrite (sub_rep3_join kept Hwords).
    fold normalize_text. change (map Re.sub_rep3 kept) with (map normalize_text kept).
    now rewrite Hfixed. }
  rewrite Hnorm, (split_join kept Hwords). subst kept.
  rewrite filter_twice, filter_opposite. repeat split.
  destruct (filter _ tokens); reflexivity.
Qed.

(* ------------------------------------------------------------------ *)
(** ** Further properties of matching and of the lexicon *)

Lemma existsb_incl {A} (p : A -> bool) l l' :
  incl l l' -> existsb p l = true -> existsb p l' = true.
Proof.
  intros Hi H. apply existsb_exists in H as (x & Hx & Hp).
  apply existsb_exists. exists x. split; [now apply Hi | exact Hp].
Qed.

Lemma filter_incl_mono {A} (p q : A -> bool) l :
  (forall x, p x = true -> q x = true) ->
  incl (filter p l) (filter q l) /\ length (filter p l) <= length (filter q l).
Proof.
  intros H. split.
  - intros x Hx. apply filter_In in Hx as [Hin Hp]. apply filter_In. auto.
  - induction l as [|x l IH]; [reflexivity|]. cbn [filter].
    destruct (p x) eqn:E.
    + rewrite (H x E). cbn [length]. lia.
    + destruct (q x); cbn [length]; lia.
Qed.

(** X9. A larger lexicon never detects less: every token a lexicon detects
    is detected by any lexicon that includes it, and the percentage does not
    go down. *)
Theorem larger_lexicon_detects_more {T1 M1 P1 T2 M2 P2}
    (a : PersianSwearWordRemover T1 M1 P1) (b : PersianSwearWordRemover T2 M2 P2)
    (text : str) :
  incl (swear_words a) (swear_words b) ->
  exists ra rb,
    remove_persian_swear_words a text = Return ra /\
    remove_persian_swear_words b text = Return rb /\
    incl (detected_swear_words ra) (detected_swear_words rb) /\
    length (detected_swear_words ra) <= length (detected_swear_words rb) /\
    (swear_word_percentage ra <= swear_word_percentage rb)%Q.
Proof.
  intros Hincl. eexists. eexists.
  split; [apply remove_persian_swear_words_eq|].
  split; [apply remove_persian_swear_words_eq|].
  cbn [detected_swear_words swear_word_percentage].
  set (tokens := split (normalize_text text)).
  assert (Hmono : forall token,
             is_swear_word a token = true -> is_swear_word b token = true)
    by (intros token; unfold is_swear_word; now apply existsb_incl).
  destruct (filter_incl_mono _ _ tokens Hmono) as [Hi Hl].
  split; [exact Hi | split; [exact Hl|]].
  destruct tokens; cbn [is_nil]; [apply Qle_refl|].
  unfold Qle, Qmult. cbn [Qnum Qden].
  apply Z.mul_le_mono_nonneg_r; [lia|]. lia.
Qed.

Lemma larger_lexicon_detects_more_witness :
  incl (swear_words (with_lexicon [lit "damn"]))
       (swear_words (with_lexicon [lit "you"; lit "damn"])) /\
  exists ra rb,
    remove_persian_swear_words (with_lexicon [lit "damn"]) (lit "you damnnn person")
    = Return ra /\
    remove_persian_swear_words (with_lexicon [lit "you"; lit "damn"])
      (lit "you damnnn person") = Return rb /\
    length (detected_swear_words ra) <= length (detected_swear_words rb).
Proof.
  assert (Hincl : incl (swear_words (with_lexicon [lit "damn"]))
                       (swear_words (with_lexicon [lit "you"; lit "damn"])))
    by (intros x [<-|[]]; right; left; reflexivity).
  split; [exact Hincl|].
  destruct (larger_lexicon_detects_more
              (with_lexicon [lit "damn"]) (with_lexicon [lit "you"; lit "damn"])
              (lit "you damnnn person") Hincl)
    as (ra & rb & Ha & Hb & _ & Hl & _).
  exists ra, rb. repeat split; assumption.
Defined.

(** X10. Only the set of fragments matters: two lexicons with the same
    elements, in any order and with any repetitions, give the same result. *)
Theorem lexicon_is_a_set {T1 M1 P1 T2 M2 P2}
    (a : PersianSwearWordRemover T1 M1 P1) (b : PersianSwearWordRemover T2 M2 P2)
    (text : str) :
  (forall fragment, In fragment (swear_words a) <-> In fragment (swear_words b)) ->
  remove_persian_swear_words a text = remove_persian_swear_words b text.
Proof.
  intros Hsame.
  assert (Heq : forall token, is_swear_word a token = is_swear_word b token).
  { intros token. unfold is_swear_word.
    destruct (existsb _ (swear_words a)) eqn:Ea; symmetry.
    - apply (existsb_incl _ (swear_words a)); [|exact Ea].
      intros x Hx. now apply Hsame.
    - destruct (existsb _ (swear_words b)) eqn:Eb; [|reflexivity].
      rewrite <- Ea. symmetry. apply (existsb_incl _ (swear_words b)); [|exact Eb].
      intros x Hx. now apply Hsame. }
  rewrite (remove_persian_swear_words_eq a), (remove_persian_swear_words_eq b).
  cbv zeta.
  rewrite (filter_ext _ _ Heq).
  rewrite (filter_ext (fun token => negb (is_swear_word a token))
             (fun token => negb (is_swear_word b token)))
    by (intros token; now rewrite Heq).
  reflexivity.
Qed.

Lemma lexicon_is_a_set_witness :
  (forall fragment,
      In fragment (swear_words (with_lexicon [lit "bad"; lit "damn"])) <->
      In fragment (swear_words (with_lexicon [lit "damn"; lit "bad"; lit "damn"]))) /\
  remove_persian_swear_words (with_lexicon [lit "bad"; lit "damn"]) (lit "a bad day")
  = remove_persian_swear_words (with_lexicon [lit "damn"; lit "bad"; lit "damn"])
      (lit "a bad day").
Proof.
  assert (H : forall fragment,
      In fragment (swear_words (with_lexicon [lit "bad"; lit "damn"])) <->
      In fragment (swear_words (with_lexicon [lit "damn"; lit "bad"; lit "damn"])))
    by (intros fragment; cbn; tauto).
  split; [exact H|].
  apply (lexicon_is_a_set (with_lexicon [lit "bad"; lit "damn"])
           (with_lexicon [lit "damn"; lit "bad"; lit "damn"]) (lit "a bad day") H).
Defined.



Lemma contains_trans a b s :
  contains a b = true -> contains b s = true -> contains a s = true.
Proof.
  intros Hab Hbs. apply contains_spec in Hab as (p1 & q1 & ->).
  apply contains_spec in Hbs as (p2 & q2 & ->). apply contains_spec.
  exists (p2 ++ p1), (q1 ++ q2). now rewrite <- !app_assoc.
Qed.

(** X12. Fragments are not normalised, tokens are: a fragment holding three
    equal characters in a row (line feeds apart) never matches, so a lexicon
    made of such fragments detects nothing. *)
Theorem repeated_letter_fragments_never_match {T M P}
    (self : PersianSwearWordRemover T M P) (token : str) :
  (forall fragment, In fragment (swear_words self) ->
      exists c, c <> LF /\ contains [c; c; c] fragment = true) ->
  is_swear_word self token = false.
Proof.
  intros Hdead. unfold is_swear_word.
  assert (Hnone : forall c, c <> LF ->
                            contains [c; c; c] (normalize_text token) = false).
  { apply has_repetition_triple.
    apply (has_repetition_sub_rep3_bounded (length token)). lia. }
  destruct (existsb _ (swear_words self)) eqn:E; [|reflexivity].
  apply existsb_exists in E as (fragment & Hin & Hc).
  destruct (Hdead fragment Hin) as (c & Hlf & Htriple).
  pose proof (contains_trans _ _ _ Htriple Hc) as Hbad.
  rewrite (Hnone c Hlf) in Hbad. discriminate.
Qed.

Lemma repeated_letter_fragments_never_match_witness :
  (forall fragment, In fragment (swear_words (with_lexicon [lit "fooo"])) ->
      exists c, c <> LF /\ contains [c; c; c] fragment = true) /\
  is_swear_word (with_lexicon [lit "fooo"]) (lit "fooo") = false.
Proof.
  assert (H : forall fragment, In fragment (swear_words (with_lexicon [lit "fooo"])) ->
      exists c, c <> LF /\ contains [c; c; c] fragment = true).
  { intros fragment [<-|[]]. exists 111%N. split; [discriminate | reflexivity]. }
  split; [exact H|].
  apply (repeated_letter_fragments_never_match (with_lexicon [lit "fooo"]) (lit "fooo") H).
Defined.

Lemma contains_In sub s c : contains sub s = true -> In c sub -> In c s.
Proof.
  intros H Hin. apply contains_spec in H as (pre & post & ->).
  apply in_or_app. right. apply in_or_app. now left.
Qed.

Lemma filter_none_in {A} (p : A -> bool) l :
  (forall x, In x l -> p x = false) -> filter p l = [].
Proof.
  induction l as [|x l IH]; [reflexivity|]. intros H. cbn [filter].
  rewrite (H x (or_introl eq_refl)). apply IH. intros y Hy. apply H. now right.
Qed.

(** X13. Tokens hold no whitespace, so a fragment with whitespace in it (a
    phrase) is never found by the pipeline: a lexicon made of such fragments
    detects nothing in any document. *)
Theorem phrases_are_never_detected {T M P}
    (self : PersianSwearWordRemover T M P) (text : str) :
  (forall fragment, In fragment (swear_words self) ->
      existsb isspace fragment = true) ->
  exists result,
    remove_persian_swear_words self text = Return result /\
    detected_swear_words result = [] /\
    cleaned_text result = join [SPACE] (split (normalize_text text)).
Proof.
  intros Hphrase. eexists. split; [apply remove_persian_swear_words_eq|].
  cbn [detected_swear_words cleaned_text].
  assert (Hno : forall token, In token (split (normalize_text text)) ->
                  is_swear_word self token = false).
  { intros token Hin. unfold is_swear_word.
    destruct (existsb _ (swear_words self)) eqn:E; [|reflexivity].
    apply existsb_exists in E as (fragment & Hf & Hc).
    apply Hphrase, existsb_exists in Hf as (c & Hcin & Hsp).
    pose proof (contains_In _ _ c Hc Hcin) as Hct.
    apply (proj1 (In_sub_rep3 token c)) in Hct.
    pose proof (split_tokens_words_helper (normalize_text text)) as Hw.
    pose proof (proj1 (forallb_forall _ _) Hw token Hin) as Hword.
    apply is_word_chars in Hword as [_ Hword].
    pose proof (proj1 (forallb_forall _ _) Hword c Hct) as Hns.
    cbn in Hns. rewrite Hsp in Hns. discriminate. }
  rewrite (filter_none_in _ _ Hno). split; [reflexivity|]. f_equal.
  induction (split (normalize_text text)) as [|t ts IH]; [reflexivity|].
  cbn [filter]. rewrite (Hno t (or_introl eq_refl)). cbn [negb]. f_equal.
  apply IH. intros y Hy. apply Hno. now right.
Qed.

Lemma phrases_are_never_detected_witness :
  (forall fragment, In fragment (swear_words (with_lexicon [lit "bad day"])) ->
      existsb isspace fragment = true) /\
  exists result,
    remove_persian_swear_words (with_lexicon [lit "bad day"]) (lit "a bad day")
    = Return result /\
    detected_swear_words result = [].
Proof.
  assert (H : forall fragment,
             In fragment (swear_words (with_lexicon [lit "bad day"])) ->
             existsb isspace fragment = true)
    by (intros fragment [<-|[]]; reflexivity).
  split; [exact H|].
  destruct (phrases_are_never_detected (with_lexicon [lit "bad day"]) (lit "a bad day") H)
    as (result & Hr & Hd & _).
  exists result. split; assumption.
Defined.

(* ------------------------------------------------------------------ *)
(** ** Further properties of the loader and of the constructor *)

Section LoaderMore.

Import Loader.

Lemma str_eqb_refl s : str_eqb s s = true.
Proof. unfold str_eqb. destruct (list_eq_dec N.eq_dec s s); congruence. Qed.

Lemma dict_get_last key pre v post default :
  existsb (fun kv => str_eqb (fst kv) key) post = false ->
  dict_get key (pre ++ (key, v) :: post) default = v.
Proof.
  intros Hpost. revert default.
  induction pre as [|[k w] pre IH]; intros default; cbn [app dict_get].
  - rewrite str_eqb_refl. now apply dict_get_absent.
  - apply IH.
Qed.

Lemma load_swear_words_last pre v post :
  existsb (fun kv => str_eqb (fst kv) swear_words_key) post = false ->
  load_swear_words (Document (JObj (pre ++ (swear_words_key, v) :: post)))
  = Return v.
Proof.
  intros H. unfold load_swear_words. cbn. now rewrite dict_get_last.
Qed.

Lemma load_swear_words_degraded f :
  (forall data, open_and_load f = Return data ->
                has_key swear_words_key data = false) ->
  load_swear_words f = Return (JArr []).
Proof.
  intros H. unfold load_swear_words.
  destruct (open_and_load f) as [data|e] eqn:E.
  - specialize (H data eq_refl). cbn [bind].
    destruct data; try reflexivity.
    cbn in H |- *. now rewrite (dict_get_absent _ _ _ H).
  - cbn. now rewrite (open_and_load_raises f e E).
Qed.

Lemma as_strings_map l : as_strings (map JStr l) = Some l.
Proof. induction l as [|s l IH]; [reflexivity|]. cbn. now rewrite IH. Qed.

End LoaderMore.

(** X14. When the document is an object with a ["swear_words"] member,
    [load_swear_words] returns that member's value, the last one when the
    key is repeated, whatever its JSON type: the default is not used. *)
Theorem load_swear_words_returns_member
    (pre post : list (str * Loader.json)) (v : Loader.json) :
  existsb (fun kv => Loader.str_eqb (fst kv) Loader.swear_words_key) post = false ->
  Loader.load_swear_words
    (Loader.Document (Loader.JObj (pre ++ (Loader.swear_words_key, v) :: post)))
  = Return v.
Proof. apply load_swear_words_last. Qed.

Lemma load_swear_words_returns_member_witness :
  existsb (fun kv => Loader.str_eqb (fst kv) Loader.swear_words_key)
    [(lit "version", Loader.JNum (lit "2"))] = false /\
  Loader.load_swear_words
    (Loader.Document
       (Loader.JObj
          ([(Loader.swear_words_key, Loader.JArr [Loader.JStr (lit "old")])]
           ++ (Loader.swear_words_key, Loader.JArr [Loader.JStr (lit "damn")])
           :: [(lit "version", Loader.JNum (lit "2"))])))
  = Return (Loader.JArr [Loader.JStr (lit "damn")]).
Proof.
  split; [reflexivity|].
  apply (load_swear_words_returns_member
           [(Loader.swear_words_key, Loader.JArr [Loader.JStr (lit "old")])]
           [(lit "version", Loader.JNum (lit "2"))]
           (Loader.JArr [Loader.JStr (lit "damn")])).
  reflexivity.
Defined.

(** X15. [load_swear_words] logs an error exactly when the file does not
    hold a JSON object (it cannot be opened, decoded or parsed, or its
    document is of another type), and then returns the empty list; an object
    without the key gives the empty list without any log. *)
Theorem load_swear_words_logging (f : Loader.file) :
  (Loader.load_swear_words_log f = [] <->
   exists members, f = Loader.Document (Loader.JObj members)) /\
  (Loader.load_swear_words_log f <> [] ->
   Loader.load_swear_words f = Return (Loader.JArr [])).
Proof.
  split.
  - split.
    + destruct f as [| | | | |data]; try discriminate.
      destruct data; try discriminate. intros _. now eexists.
    + intros [members ->]. reflexivity.
  - destruct f as [| | | | |data]; try reflexivity.
    destruct data; try reflexivity. intros H. now contradiction H.
Qed.

Lemma load_swear_words_logging_witness :
  Loader.load_swear_words_log (Loader.Document (Loader.JArr [])) <> [] /\
  Loader.load_swear_words (Loader.Document (Loader.JArr [])) = Return (Loader.JArr []) /\
  Loader.load_swear_words_log (Loader.Document (Loader.JObj [])) = [].
Proof.
  assert (H : Loader.load_swear_words_log (Loader.Document (Loader.JArr [])) <> [])
    by discriminate.
  split; [exact H | split].
  - apply (proj2 (load_swear_words_logging (Loader.Document (Loader.JArr []))) H).
  - apply (proj1 (load_swear_words_logging (Loader.Document (Loader.JObj [])))).
    now exists [].
Defined.

(** X16. Fail-open, end to end: built on a lexicon file that cannot be read
    or has no ["swear_words"] member, the remover has an empty lexicon and
    passes every text through, normalised and rejoined, with nothing
    detected and zero percent. *)
Theorem broken_lexicon_passes_text_through {T M P}
    (tok : T) (mdl : M) (pipe : P) (swear_file : Loader.file) (text : str) :
  (forall data, Loader.open_and_load swear_file = Return data ->
                Loader.has_key Loader.swear_words_key data = false) ->
  exists remover result,
    init tok mdl pipe swear_file = Return (Some remover) /\
    swear_words remover = [] /\
    remove_persian_swear_words remover text = Return result /\
    cleaned_text result = join [SPACE] (split (normalize_text text)) /\
    detected_swear_words result = [] /\
    (swear_word_percentage result == 0)%Q.
Proof.
  intros H. unfold init. rewrite (load_swear_words_degraded swear_file H).
  cbn [bind as_lexicon as_strings option_map].
  eexists. eexists. split; [reflexivity|]. split; [reflexivity|].
  split; [apply remove_persian_swear_words_eq|].
  cbn [cleaned_text detected_swear_words swear_word_percentage].
  rewrite (filter_none (is_swear_word _)) by (intros token; reflexivity).
  rewrite (filter_all (fun token => negb (is_swear_word _ token)))
    by (intros token; reflexivity).
  repeat split. destruct (split (normalize_text text)); reflexivity.
Qed.

Lemma broken_lexicon_passes_text_through_witness :
  (forall data, Loader.open_and_load Loader.Missing = Return data ->
                Loader.has_key Loader.swear_words_key data = false) /\
  exists remover result,
    init tt tt tt Loader.Missing = Return (Some remover) /\
    remove_persian_swear_words remover (lit "you damnnn person") = Return result /\
    cleaned_text result = lit "you damn person".
Proof.
  assert (H : forall data, Loader.open_and_load Loader.Missing = Return data ->
                Loader.has_key Loader.swear_words_key data = false)
    by (intros data Hd; discriminate Hd).
  split; [exact H|].
  destruct (broken_lexicon_passes_text_through tt tt tt Loader.Missing
              (lit "you damnnn person") H)
    as (remover & result & Hi & _ & Hr & Hc & _).
  exists remover, result. repeat split; assumption.
Defined.

(** X17. Round trip from file to lexicon: built on a file whose document is
    an object with a ["swear_words"] list of strings, the remover's lexicon
    is that list, in the file's order. *)
Theorem init_reads_lexicon {T M P}
    (tok : T) (mdl : M) (pipe : P)
    (pre post : list (str * Loader.json)) (fragments : list str) :
  existsb (fun kv => Loader.str_eqb (fst kv) Loader.swear_words_key) post = false ->
  init tok mdl pipe
    (Loader.Document
       (Loader.JObj
          (pre ++ (Loader.swear_words_key, Loader.JArr (map Loader.JStr fragments))
               :: post)))
  = Return (Some {| tokenizer := tok; model := mdl; pipeline := pipe;
                    swear_words := fragments |}).
Proof.
  intros H. unfold init. rewrite (load_swear_words_last _ _ _ H).
  cbn [bind as_lexicon]. now rewrite as_strings_map.
Qed.

Lemma init_reads_lexicon_witness :
  existsb (fun kv : str * Loader.json =>
             Loader.str_eqb (fst kv) Loader.swear_words_key) [] = false /\
  init tt tt tt
    (Loader.Document
       (Loader.JObj
          ([] ++ (Loader.swear_words_key,
                  Loader.JArr (map Loader.JStr [lit "damn"; lit "bad"])) :: [])))
  = Return (Some (with_lexicon [lit "damn"; lit "bad"])).
Proof.
  split; [reflexivity|].
  apply (init_reads_lexicon tt tt tt [] [] [lit "damn"; lit "bad"]). reflexivity.
Defined.

(* ------------------------------------------------------------------ *)
(** ** Documents without tokens *)

Lemma split_blank s : forallb isspace s = true -> split s = [].
Proof.
  unfold split. induction s as [|c tl IH]; [reflexivity|].
  cbn [forallb split_from]. intros H. apply andb_prop in H as [Hc Htl].
  rewrite Hc. cbn [is_nil]. now apply IH.
Qed.

Lemma split_nil_blank cur s :
  split_from cur s = [] -> cur = [] /\ forallb isspace s = true.
Proof.
  revert cur. induction s as [|c tl IH]; intros cur; cbn [split_from forallb].
  - destruct cur; [now split | discriminate].
  - destruct (isspace c) eqn:E.
    + destruct cur; cbn [is_nil]; [|discriminate].
      intros H. destruct (IH [] H) as [_ Htl]. now split.
    + intros H. destruct (IH _ H) as [Hcur _]. now destruct cur.
Qed.

(** X18. A document has no token exactly when it holds nothing but
    whitespace (the empty document included); the result is then the empty
    text, no detected word and the integer zero, whatever the lexicon. *)
Theorem blank_document {T M P}
    (self : PersianSwearWordRemover T M P) (text : str) :
  (split (normalize_text text) = [] <-> forallb isspace text = true) /\
  (forallb isspace text = true ->
   remove_persian_swear_words self text
   = Return {| cleaned_text := [];
               detected_swear_words := [];
               swear_word_percentage := 0 |}).
Proof.
  assert (Hiff : split (normalize_text text) = [] <-> forallb isspace text = true).
  { split.
    - intros H. apply split_nil_blank in H as [_ H].
      apply forallb_forall. intros c Hc.
      apply (proj2 (In_sub_rep3 text c)) in Hc.
      exact (proj1 (forallb_forall _ _) H c Hc).
    - intros H. apply split_blank. apply forallb_forall. intros c Hc.
      apply (proj1 (In_sub_rep3 text c)) in Hc.
      exact (proj1 (forallb_forall _ _) H c Hc). }
  split; [exact Hiff|]. intros H. apply Hiff in H.
  rewrite remove_persian_swear_words_eq. cbv zeta. now rewrite H.
Qed.

Lemma blank_document_witness :
  forallb isspace [SPACE; LF; 9%N; SPACE; SPACE; SPACE] = true /\
  remove_persian_swear_words (with_lexicon [lit "damn"; []])
    [SPACE; LF; 9%N; SPACE; SPACE; SPACE]
  = Return {| cleaned_text := [];
              detected_swear_words := [];
              swear_word_percentage := 0 |}.
Proof.
  split; [reflexivity|].
  apply (blank_document (with_lexicon [lit "damn"; []])
           [SPACE; LF; 9%N; SPACE; SPACE; SPACE]).
  reflexivity.
Defined.

(* ------------------------------------------------------------------ *)
(** ** Runs the normaliser keeps *)

(** X19. Between a text not ending with [c] and a text not starting with
    [c], a run of exactly two [c] is left as it is, for every character, the
    line feed included; and a run of line feeds of any length is left as it
    is. *)
Theorem normalize_text_keeps_short_runs (c : char) (s s2 : str) :
  ends c s = false -> starts c s2 = false ->
  normalize_text (s ++ [c; c] ++ s2)
  = normalize_text s ++ [c; c] ++ normalize_text s2 /\
  (c = LF ->
   forall k, normalize_text (s ++ rep c (S k) ++ s2)
             = normalize_text s ++ rep c (S k) ++ normalize_text s2).
Proof.
  intros Hs Hs2. unfold normalize_text. split.
  - cbn [app]. rewrite (sub_rep3_app s c _ Hs).
    now rewrite (sub_rep3_double c s2 Hs2).
  - intros -> k.
    change (rep LF (S k) ++ s2) with (LF :: rep LF k ++ s2).
    rewrite (sub_rep3_app s LF _ Hs).
    change (LF :: rep LF k ++ s2) with (rep LF (S k) ++ s2).
    now rewrite sub_rep3_line_feeds.
Qed.

Lemma normalize_text_keeps_short_runs_witness :
  ends LF (lit "ab") = false /\ starts LF (lit "cd") = false /\
  normalize_text (lit "ab" ++ [LF; LF] ++ lit "cd")
  = normalize_text (lit "ab") ++ [LF; LF] ++ normalize_text (lit "cd") /\
  normalize_text (lit "ab" ++ rep LF 4 ++ lit "cd")
  = normalize_text (lit "ab") ++ rep LF 4 ++ normalize_text (lit "cd").
Proof.
  split; [reflexivity | split; [reflexivity|]].
  destruct (normalize_text_keeps_short_runs LF (lit "ab") (lit "cd") eq_refl eq_refl)
    as [Hdouble Hfeeds].
  split; [exact Hdouble | exact (Hfeeds eq_refl 3)].
Defined.
